(** * CloudWanderer: the discovery / write / reconcile engine

    A shallow embedding of [cloudwanderer/cloud_wanderer.py].  The methods of
    class [CloudWanderer] become functions in a state-and-exception monad
    that threads the storage connectors (mutable objects shared by every
    call) and records the calls issued to the collaborators.  The boto3
    interface and the storage connectors are collaborators of the class; they
    are taken as interfaces.  [write_resources_concurrently], which hands the
    region traversals to the threads of a pool, has no counterpart here. *)

From stdpp Require Import gmap strings list fin_maps.

Set Warnings "-clear-no-such-hyp".

(** ** Data model *)

(** [AwsUrn]: the five-field identifier of a discovered entity. *)
Record AwsUrn := mkUrn {
  urn_account_id : string;
  urn_region : string;
  urn_service : string;
  urn_resource_type : string;
  urn_resource_id : string
}.

#[global] Instance AwsUrn_eq_dec : EqDecision AwsUrn.
Proof. solve_decision. Defined.

Definition urn_to_tuple (u : AwsUrn) : string * string * string * string * string :=
  (urn_account_id u, urn_region u, urn_service u, urn_resource_type u, urn_resource_id u).

Definition urn_of_tuple (t : string * string * string * string * string) : AwsUrn :=
  let '(a, r, s, t, i) := t in mkUrn a r s t i.

#[global] Instance AwsUrn_countable : Countable AwsUrn.
Proof.
  refine (inj_countable' urn_to_tuple urn_of_tuple _).
  by intros [].
Defined.

(** Python values stored in the [client_args] dict: [None], a [str], or an
    opaque object (a botocore [Config], say). *)
Inductive PyValue :=
| PyNone
| PyStr (s : string)
| PyObj (id : nat).

#[global] Instance PyValue_eq_dec : EqDecision PyValue.
Proof. solve_decision. Defined.

Abbreviation dict := (gmap string PyValue).

(** Exceptions that can leave a method. *)
Inductive Exception :=
| KeyError (key : string)
| ProviderError (code : nat)
| ConnectorError (code : nat).

#[global] Instance Exception_eq_dec : EqDecision Exception.
Proof. solve_decision. Defined.

Inductive result (A : Type) :=
| Ok (a : A)
| Raise (e : Exception).
Arguments Ok {A} a.
Arguments Raise {A} e.

Definition is_ok {A} (r : result A) : bool :=
  match r with Ok _ => true | Raise _ => false end.

(** Messages handed to [logger.info] / [logger.warning]. *)
Inductive LogMsg :=
| LogWritingAllRegions
| LogWritingService (service_name : string) (region : PyValue)
| LogSkipping (resource_type : string)
| LogFetching (service_name resource_type : string) (region : PyValue)
| LogDeleting (service_name resource_type region_name : string)
| LogFetchingAttribute (attribute_type : string) (region : PyValue).

(** ** The collaborators *)

(** The part of [CloudWandererBoto3Interface] (and of the boto3 objects it
    hands out) that [CloudWanderer] calls.  Calls that fetch from the
    provider can raise; what is read from metadata is a value.  A listing is
    taken whole: it raises before its first element or gives all its
    elements.  The session the interface was built from is kept with it. *)
Record Boto3Interface (Service Resource Attribute : Type) := {
  (** [self.boto3_session.region_name], [None] when the session has none *)
  session_region_name : PyValue;
  enabled_regions : list string;
  account_id : string;
  get_all_resource_services : list Service;
  meta_service_name : Service -> string;
  get_service_resource_types : string -> list string;
  get_resources_of_type : string -> string -> dict -> result (list Resource);
  get_subresources : Resource -> result (list Resource);
  load : Resource -> result Resource;
  get_secondary_attributes : Resource -> result (list Attribute);
  xform_name_of : Attribute -> string;
  _get_resource_urn : Resource -> PyValue -> AwsUrn;
  resource_regions_returned_from_api_region : string -> PyValue -> list string
}.
Arguments session_region_name {_ _ _} _.
Arguments enabled_regions {_ _ _} _.
Arguments account_id {_ _ _} _.
Arguments get_all_resource_services {_ _ _} _.
Arguments meta_service_name {_ _ _} _ _.
Arguments get_service_resource_types {_ _ _} _ _.
Arguments get_resources_of_type {_ _ _} _ _ _ _.
Arguments get_subresources {_ _ _} _ _.
Arguments load {_ _ _} _ _.
Arguments get_secondary_attributes {_ _ _} _ _.
Arguments xform_name_of {_ _ _} _ _.
Arguments _get_resource_urn {_ _ _} _ _ _.
Arguments resource_regions_returned_from_api_region {_ _ _} _ _ _.

(** The three calls the write path makes on a storage connector. *)
Inductive ConnectorCall (Resource Attribute : Type) :=
| WriteResource (urn : AwsUrn) (resource : Resource)
| WriteSecondaryAttribute (urn : AwsUrn) (secondary_attribute : Attribute)
    (attribute_type : string)
| DeleteResourceOfTypeInAccountRegion (service resource_type account_id region : string)
    (urns_to_keep : list AwsUrn).
Arguments WriteResource {_ _} _ _.
Arguments WriteSecondaryAttribute {_ _} _ _ _.
Arguments DeleteResourceOfTypeInAccountRegion {_ _} _ _ _ _ _.

(** [BaseStorageConnector]: a connector object of state [Conn] answers each
    call by returning normally or raising, and is left in a new state either
    way. *)
Class BaseStorageConnector (Conn Resource Attribute : Type) := {
  write_resource : AwsUrn -> Resource -> Conn -> result unit * Conn;
  write_secondary_attribute :
    AwsUrn -> Attribute -> string -> Conn -> result unit * Conn;
  delete_resource_of_type_in_account_region :
    string -> string -> string -> string -> list AwsUrn -> Conn -> result unit * Conn
}.

(** The calls made on the provider that can raise. *)
Inductive ProviderCall (Resource : Type) :=
| GetResourcesOfType (service_name resource_type : string) (client_args : dict)
| GetSubresources (boto3_resource : Resource)
| Load (subresource : Resource)
| GetSecondaryAttributes (boto3_resource : Resource).
Arguments GetResourcesOfType {_} _ _ _.
Arguments GetSubresources {_} _.
Arguments Load {_} _.
Arguments GetSecondaryAttributes {_} _.

(** What a run leaves behind, in the order it happened.  The [nat] of a
    connector event is the position of the connector in
    [self.storage_connectors]. *)
Inductive Event (Resource Attribute : Type) :=
| EvLog (msg : LogMsg)
| EvProvider (call : ProviderCall Resource)
| EvConnector (connector : nat) (call : ConnectorCall Resource Attribute).
Arguments EvLog {_ _} _.
Arguments EvProvider {_ _} _.
Arguments EvConnector {_ _} _ _.

(** ** The monad *)

(** A computation starts from the connectors as they are and ends with an
    outcome, the connectors as it left them (also when it raised) and the
    events it emitted. *)
Record Run (Conn Resource Attribute A : Type) := mkRun {
  outcome : result A;
  conns : list Conn;
  emitted : list (Event Resource Attribute)
}.
Arguments mkRun {_ _ _ _} _ _ _.
Arguments outcome {_ _ _ _} _.
Arguments conns {_ _ _ _} _.
Arguments emitted {_ _ _ _} _.

Section Monad.
Context {Conn Resource Attribute : Type}.
Context `{!BaseStorageConnector Conn Resource Attribute}.

Definition M (A : Type) : Type := list Conn -> Run Conn Resource Attribute A.

#[export] Instance M_ret : MRet M := fun A a cs => mkRun (Ok a) cs [].

#[export] Instance M_bind : MBind M := fun A B k m cs =>
  let r1 := m cs in
  match outcome r1 with
  | Ok a => let r2 := k a (conns r1) in
            mkRun (outcome r2) (conns r2) (emitted r1 ++ emitted r2)
  | Raise e => mkRun (Raise e) (conns r1) (emitted r1)
  end.

Definition log (msg : LogMsg) : M unit :=
  fun cs => mkRun (Ok tt) cs [EvLog msg].

(** A call to the provider: recorded, then its outcome. *)
Definition provider {A} (call : ProviderCall Resource) (r : result A) : M A :=
  fun cs => mkRun r cs [EvProvider call].

(** [d[key]] *)
Definition getitem (d : dict) (key : string) : M PyValue :=
  fun cs => match d !! key with
            | Some v => mkRun (Ok v) cs []
            | None => mkRun (Raise (KeyError key)) cs []
            end.

(** [for x in l: body(x)], collecting what the bodies produce. *)
Fixpoint for_each {A B} (l : list A) (body : A -> M B) : M (list B) :=
  match l with
  | [] => mret []
  | x :: l' => b ← body x; bs ← for_each l' body; mret (b :: bs)
  end.

Definition perform (call : ConnectorCall Resource Attribute)
    : Conn -> result unit * Conn :=
  match call with
  | WriteResource urn resource => write_resource urn resource
  | WriteSecondaryAttribute urn secondary_attribute attribute_type =>
      write_secondary_attribute urn secondary_attribute attribute_type
  | DeleteResourceOfTypeInAccountRegion service resource_type account_id region
      urns_to_keep =>
      delete_resource_of_type_in_account_region service resource_type account_id
        region urns_to_keep
  end.

(** [for storage_connector in self.storage_connectors: storage_connector.call(...)]:
    the connectors are called in list order, and the first one that raises
    ends the loop. *)
Fixpoint call_each (call : ConnectorCall Resource Attribute) (i : nat)
    (cs : list Conn) : Run Conn Resource Attribute unit :=
  match cs with
  | [] => mkRun (Ok tt) [] []
  | c :: rest =>
      match (perform call c).1 with
      | Ok _ =>
          let r := call_each call (S i) rest in
          mkRun (outcome r) ((perform call c).2 :: conns r)
            (EvConnector i call :: emitted r)
      | Raise e => mkRun (Raise e) ((perform call c).2 :: rest) [EvConnector i call]
      end
  end.

Definition for_each_connector (call : ConnectorCall Resource Attribute) : M unit :=
  call_each call 0.
End Monad.

(** ** The engine *)

Section CloudWanderer.
Context {Service Resource Attribute Conn : Type}.
Context (boto3_interface : Boto3Interface Service Resource Attribute).
Context `{!BaseStorageConnector Conn Resource Attribute}.

#[local] Abbreviation M := (@M Conn Resource Attribute).

(** Python truthiness of the optional arguments. *)
Definition truthy_dict (d : option dict) : bool :=
  match d with
  | Some d => negb (bool_decide (d = ∅))
  | None => false
  end.

Definition truthy_str (s : option string) : bool :=
  match s with
  | Some s => negb (bool_decide (s = ""))
  | None => false
  end.

(** [region_name or self.boto3_session.region_name] *)
Definition region_or_session (region_name : option string) : PyValue :=
  match region_name with
  | Some s => if truthy_str region_name then PyStr s
              else session_region_name boto3_interface
  | None => session_region_name boto3_interface
  end.

(** [_write_resource]: a generator, drained by [list(...)] at its only call
    site, so that its effects happen in program order and the list it
    returns is what it yields: the Urn of the resource, then the Urn of
    each subresource. *)
Definition _write_resource (boto3_resource : Resource) (region_name : PyValue)
    : M (list AwsUrn) :=
  let urn := _get_resource_urn boto3_interface boto3_resource region_name in
  for_each_connector (WriteResource urn boto3_resource);;
  subresources ← provider (GetSubresources boto3_resource)
                   (get_subresources boto3_interface boto3_resource);
  urns ← for_each subresources (fun subresource =>
    subresource ← provider (Load subresource) (load boto3_interface subresource);
    let urn := _get_resource_urn boto3_interface subresource region_name in
    for_each_connector (WriteResource urn subresource);;
    mret urn);
  mret (urn :: urns).

(** [_write_secondary_attributes]: also a generator drained by [list(...)];
    it yields the Urn of [boto3_resource] once per secondary attribute. *)
Definition _write_secondary_attributes (boto3_resource : Resource)
    (region_name : PyValue) : M (list AwsUrn) :=
  secondary_attributes ← provider (GetSecondaryAttributes boto3_resource)
                           (get_secondary_attributes boto3_interface boto3_resource);
  for_each secondary_attributes (fun secondary_attribute =>
    let attribute_type := xform_name_of boto3_interface secondary_attribute in
    log (LogFetchingAttribute attribute_type region_name);;
    let urn := _get_resource_urn boto3_interface boto3_resource region_name in
    for_each_connector
      (WriteSecondaryAttribute urn secondary_attribute attribute_type);;
    mret urn).

Definition _clean_resources_in_region (service_name resource_type region_name : string)
    (current_urns : list AwsUrn) : M unit :=
  for_each_connector
    (DeleteResourceOfTypeInAccountRegion service_name resource_type
       (account_id boto3_interface) region_name current_urns).

(** [client_args or {'region_name': region_name or self.boto3_session.region_name}] *)
Definition type_client_args (region_name : option string) (client_args : option dict)
    : dict :=
  match client_args with
  | Some d => if truthy_dict client_args then d
              else {[ "region_name" := region_or_session region_name ]}
  | None => {[ "region_name" := region_or_session region_name ]}
  end.

(** The body of the loop over the resources of a scope: what one resource
    adds to [urns]. *)
Definition write_one (region : PyValue) (boto3_resource : Resource)
    : M (list AwsUrn) :=
  written ← _write_resource boto3_resource region;
  attributes ← _write_secondary_attributes boto3_resource region;
  mret (written ++ attributes).

(** The loop over [regions_returned]. *)
Definition clean_regions (service_name resource_type : string)
    (regions_returned : list string) (urns : list AwsUrn) : M unit :=
  for_each regions_returned (fun region_name =>
    log (LogDeleting service_name resource_type region_name);;
    _clean_resources_in_region service_name resource_type region_name urns);;
  mret tt.

(** [write_resources_of_type_in_region].  [client_args['region_name']] is
    first evaluated for the log line that precedes the fetch; the dict is
    not changed afterwards, so the later subscripts read the same value.
    Every caller passes [resource_type]; its default [None] is left out. *)
Definition write_resources_of_type_in_region (service_name resource_type : string)
    (region_name : option string) (client_args : option dict) : M unit :=
  let client_args := type_client_args region_name client_args in
  region ← getitem client_args "region_name";
  log (LogFetching service_name resource_type region);;
  resources ← provider (GetResourcesOfType service_name resource_type client_args)
                (get_resources_of_type boto3_interface service_name resource_type
                   client_args);
  urns ← for_each resources (write_one region);
  let urns := concat urns in
  let regions_returned :=
    resource_regions_returned_from_api_region boto3_interface service_name region in
  clean_regions service_name resource_type regions_returned urns.

(** The dict built at the head of [write_resources_of_service_in_region]:
    a copy of [client_args] (or a new dict), with ['region_name'] set from
    the argument or, when still missing, from the session. *)
Definition service_client_args (region_name : option string)
    (client_args : option dict) : dict :=
  let client_args :=
    match client_args with
    | Some d => if truthy_dict client_args then d else ∅
    | None => ∅
    end in
  let client_args :=
    match region_name with
    | Some s => if truthy_str region_name
                then <["region_name" := PyStr s]> client_args else client_args
    | None => client_args
    end in
  match client_args !! "region_name" with
  | Some _ => client_args
  | None => <["region_name" := session_region_name boto3_interface]> client_args
  end.

Definition write_resources_of_service_in_region (service_name : string)
    (exclude_resources : option (list string)) (region_name : option string)
    (client_args : option dict) : M unit :=
  let client_args := service_client_args region_name client_args in
  region ← getitem client_args "region_name";
  log (LogWritingService service_name region);;
  let exclude_resources := default [] exclude_resources in
  for_each (get_service_resource_types boto3_interface service_name)
    (fun resource_type =>
       if decide (resource_type ∈ exclude_resources)
       then log (LogSkipping resource_type)
       else write_resources_of_type_in_region service_name resource_type None
              (Some client_args));;
  mret tt.

Definition write_resources_in_region (exclude_resources : option (list string))
    (region_name : option string) (client_args : option dict) : M unit :=
  let exclude_resources := default [] exclude_resources in
  for_each (get_all_resource_services boto3_interface) (fun boto3_service =>
    write_resources_of_service_in_region
      (meta_service_name boto3_interface boto3_service)
      (Some exclude_resources) region_name client_args);;
  mret tt.

Definition write_resources (exclude_resources : option (list string))
    (client_args : option dict) : M unit :=
  log LogWritingAllRegions;;
  for_each (enabled_regions boto3_interface) (fun region_name =>
    write_resources_in_region exclude_resources (Some region_name) client_args);;
  mret tt.

End CloudWanderer.

(** ** Describing runs *)

Section Behaviour.
Context {Service Resource Attribute Conn : Type}.
Context (boto3_interface : Boto3Interface Service Resource Attribute).
Context `{!BaseStorageConnector Conn Resource Attribute}.

#[local] Abbreviation M := (@M Conn Resource Attribute).
#[local] Abbreviation Event := (Event Resource Attribute).

(** What a computation does, whatever the number of connectors: a connector
    action stands for the call made on every connector in turn. *)
Inductive Action :=
| ALog (msg : LogMsg)
| AProvider (call : ProviderCall Resource)
| ACall (call : ConnectorCall Resource Attribute).

Definition on_all (n : nat) (call : ConnectorCall Resource Attribute) : list Event :=
  (fun i => EvConnector i call) <$> seq 0 n.

Definition expand (n : nat) (a : Action) : list Event :=
  match a with
  | ALog msg => [EvLog msg]
  | AProvider call => [EvProvider call]
  | ACall call => on_all n call
  end.

Definition step (c : Conn) (a : Action) : Conn :=
  match a with
  | ACall call => (perform call c).2
  | _ => c
  end.

Definition replay (acts : list Action) (c : Conn) : Conn := foldl step c acts.

(** [performs m acts v]: a run of [m] keeps the number of connectors and
    emits a prefix of the events of [acts]; when it returns, it returns
    [v], it has emitted all the events of [acts], and every connector went
    through the connector calls of [acts]. *)
Definition performs {A} (m : M A) (acts : list Action) (v : A) : Prop :=
  forall cs,
    length (conns (m cs)) = length cs
    /\ emitted (m cs) `prefix_of` (acts ≫= expand (length cs))
    /\ forall a, outcome (m cs) = Ok a ->
         a = v /\ emitted (m cs) = acts ≫= expand (length cs)
         /\ conns (m cs) = replay acts <$> cs.

(** [stateless m]: the outcome of [m] does not depend on the connectors. *)
Definition stateless {A} (m : M A) : Prop :=
  forall cs cs', outcome (m cs) = outcome (m cs').

(** A connector class none of whose calls raises. *)
Definition never_raises : Prop :=
  forall (call : ConnectorCall Resource Attribute) (c : Conn),
    (perform call c).1 = Ok tt.

(** Kinds of events. *)
Definition is_write (ev : Event) : bool :=
  match ev with
  | EvConnector _ (WriteResource _ _) => true
  | EvConnector _ (WriteSecondaryAttribute _ _ _) => true
  | _ => false
  end.

Definition is_resource_write (ev : Event) : bool :=
  match ev with
  | EvConnector _ (WriteResource _ _) => true
  | _ => false
  end.

Definition is_delete (ev : Event) : bool :=
  match ev with
  | EvConnector _ (DeleteResourceOfTypeInAccountRegion _ _ _ _ _) => true
  | _ => false
  end.

(** *** What the provider answers, read as values *)

Definition ok_or {A} (d : A) (r : result A) : A :=
  match r with Ok a => a | Raise _ => d end.

Definition resources_of (service_name resource_type : string) (client_args : dict)
    : list Resource :=
  ok_or [] (get_resources_of_type boto3_interface service_name resource_type
              client_args).

Definition subresources_of (boto3_resource : Resource) : list Resource :=
  ok_or [] (get_subresources boto3_interface boto3_resource).

Definition loaded (subresource : Resource) : Resource :=
  ok_or subresource (load boto3_interface subresource).

Definition secondary_attributes_of (boto3_resource : Resource) : list Attribute :=
  ok_or [] (get_secondary_attributes boto3_interface boto3_resource).

#[local] Abbreviation urn_of := (_get_resource_urn boto3_interface).

(** *** The actions of the engine *)

Definition subresource_actions (region : PyValue) (subresource : Resource)
    : list Action :=
  [AProvider (Load subresource);
   ACall (WriteResource (urn_of (loaded subresource) region) (loaded subresource))].

Definition write_resource_actions (region : PyValue) (boto3_resource : Resource)
    : list Action :=
  ACall (WriteResource (urn_of boto3_resource region) boto3_resource)
  :: AProvider (GetSubresources boto3_resource)
  :: (subresources_of boto3_resource ≫= subresource_actions region).

Definition write_resource_urns (region : PyValue) (boto3_resource : Resource)
    : list AwsUrn :=
  urn_of boto3_resource region
  :: ((fun subresource => urn_of (loaded subresource) region)
        <$> subresources_of boto3_resource).

Definition attribute_actions (region : PyValue) (boto3_resource : Resource)
    (secondary_attribute : Attribute) : list Action :=
  [ALog (LogFetchingAttribute (xform_name_of boto3_interface secondary_attribute) region);
   ACall (WriteSecondaryAttribute (urn_of boto3_resource region) secondary_attribute
            (xform_name_of boto3_interface secondary_attribute))].

Definition secondary_attributes_actions (region : PyValue) (boto3_resource : Resource)
    : list Action :=
  AProvider (GetSecondaryAttributes boto3_resource)
  :: (secondary_attributes_of boto3_resource ≫= attribute_actions region boto3_resource).

Definition secondary_attributes_urns (region : PyValue) (boto3_resource : Resource)
    : list AwsUrn :=
  (fun _ => urn_of boto3_resource region) <$> secondary_attributes_of boto3_resource.

Definition write_one_actions (region : PyValue) (boto3_resource : Resource)
    : list Action :=
  write_resource_actions region boto3_resource
  ++ secondary_attributes_actions region boto3_resource.

Definition write_one_urns (region : PyValue) (boto3_resource : Resource)
    : list AwsUrn :=
  write_resource_urns region boto3_resource
  ++ secondary_attributes_urns region boto3_resource.

Definition clean_call (service_name resource_type : string) (urns : list AwsUrn)
    (region_name : string) : ConnectorCall Resource Attribute :=
  DeleteResourceOfTypeInAccountRegion service_name resource_type
    (account_id boto3_interface) region_name urns.

Definition clean_actions (service_name resource_type : string) (urns : list AwsUrn)
    (region_name : string) : list Action :=
  [ALog (LogDeleting service_name resource_type region_name);
   ACall (clean_call service_name resource_type urns region_name)].

(** The list [urns] of a scope pass: what is handed to the connectors as
    [urns_to_keep]. *)
Definition scope_urns (region : PyValue) (resources : list Resource) : list AwsUrn :=
  resources ≫= write_one_urns region.

Definition scope_write_actions (service_name resource_type : string)
    (client_args : dict) (region : PyValue) : list Action :=
  ALog (LogFetching service_name resource_type region)
  :: AProvider (GetResourcesOfType service_name resource_type client_args)
  :: (resources_of service_name resource_type client_args ≫= write_one_actions region).

Definition scope_clean_actions (service_name resource_type : string)
    (client_args : dict) (region : PyValue) : list Action :=
  resource_regions_returned_from_api_region boto3_interface service_name region
  ≫= clean_actions service_name resource_type
       (scope_urns region (resources_of service_name resource_type client_args)).

Definition scope_actions (service_name resource_type : string)
    (client_args : dict) (region : PyValue) : list Action :=
  scope_write_actions service_name resource_type client_args region
  ++ scope_clean_actions service_name resource_type client_args region.
(** *** The region traversal *)

(** The value read back from the dict built by
    [write_resources_of_service_in_region]. *)
Definition service_region (region_name : option string) (client_args : option dict)
    : PyValue :=
  default PyNone (service_client_args boto3_interface region_name client_args
                    !! "region_name").

Definition service_actions (service_name : string) (exclude_resources : list string)
    (client_args : dict) (region : PyValue) : list Action :=
  ALog (LogWritingService service_name region)
  :: (get_service_resource_types boto3_interface service_name
      ≫= fun resource_type =>
           if decide (resource_type ∈ exclude_resources)
           then [ALog (LogSkipping resource_type)]
           else scope_actions service_name resource_type client_args region).

Definition region_actions (exclude_resources : list string)
    (region_name : option string) (client_args : option dict) : list Action :=
  get_all_resource_services boto3_interface
  ≫= fun boto3_service =>
       service_actions (meta_service_name boto3_interface boto3_service)
         exclude_resources
         (service_client_args boto3_interface region_name client_args)
         (service_region region_name client_args).

(** The resource type an action or an event names as the type of its
    scope: the fetch of a scope, its reconciliation delete, and the log
    lines of both. *)
Definition action_resource_type (a : Action) : option string :=
  match a with
  | ALog (LogFetching _ resource_type _) => Some resource_type
  | ALog (LogDeleting _ resource_type _) => Some resource_type
  | AProvider (GetResourcesOfType _ resource_type _) => Some resource_type
  | ACall (DeleteResourceOfTypeInAccountRegion _ resource_type _ _ _) =>
      Some resource_type
  | _ => None
  end.

Definition event_resource_type (ev : Event) : option string :=
  match ev with
  | EvLog (LogFetching _ resource_type _) => Some resource_type
  | EvLog (LogDeleting _ resource_type _) => Some resource_type
  | EvProvider (GetResourcesOfType _ resource_type _) => Some resource_type
  | EvConnector _ (DeleteResourceOfTypeInAccountRegion _ resource_type _ _ _) =>
      Some resource_type
  | _ => None
  end.
End Behaviour.

Arguments Action : clear implicits.

(** ** The storage connector of the specification *)

Section SpecConnector.
Context {Resource Attribute : Type}.

(** Modelled from the spec: the records of a connector (the data model of
    the storage connectors is not among the sources).  Under a key a
    connector stores a resource record, or a secondary attribute record when
    the key carries an attribute type. *)
Inductive StoredRecord :=
| ResourceRecord (resource : Resource)
| SecondaryAttributeRecord (secondary_attribute : Attribute).

#[local] Abbreviation Store := (gmap (AwsUrn * option string) StoredRecord).

(** Modelled from the spec: a Urn matches (service, resource_type,
    account_id, region), the scope a connector is asked to reconcile. *)
Definition in_scope (service resource_type account region : string) (urn : AwsUrn)
    : Prop :=
  urn_service urn = service /\ urn_resource_type urn = resource_type
  /\ urn_account_id urn = account /\ urn_region urn = region.

#[export] Instance in_scope_dec service resource_type account region urn :
  Decision (in_scope service resource_type account region urn).
Proof. unfold in_scope. apply _. Defined.

(** Modelled from the spec: the stored records that [deleteResourcesNotIn]
    removes are those whose Urn matches the scope and is not in the
    keep-list. *)
Definition stale (service resource_type account region : string)
    (urns_to_keep : list AwsUrn) (urn : AwsUrn) : Prop :=
  in_scope service resource_type account region urn /\ urn ∉ urns_to_keep.

#[export] Instance stale_dec service resource_type account region urns_to_keep urn :
  Decision (stale service resource_type account region urns_to_keep urn).
Proof. unfold stale. apply _. Defined.

(** Modelled from the spec: the store a connector is left with by
    [deleteResourcesNotIn] (the delete method of the connectors is not among
    the sources). *)
Definition reconciled (service resource_type account region : string)
    (urns_to_keep : list AwsUrn) (store : Store) : Store :=
  filter (fun kv => ¬ stale service resource_type account region urns_to_keep kv.1.1)
    store.

(** Modelled from the spec: the [StorageConnector] behind
    [BaseStorageConnector], whose implementations are not among the sources.
    A connector holds resource records and secondary attribute records,
    each under its Urn (a secondary attribute under the Urn of its resource
    plus its attribute type); a write is an upsert that never fails here;
    [deleteResourcesNotIn] removes all stored records matching (service,
    resource_type, region, account_id) whose Urn is not in [urnsToKeep]. *)
#[export] Instance spec_connector : BaseStorageConnector Store Resource Attribute := {
  write_resource urn resource store :=
    (Ok tt, <[(urn, None) := ResourceRecord resource]> store);
  write_secondary_attribute urn secondary_attribute attribute_type store :=
    (Ok tt, <[(urn, Some attribute_type) := SecondaryAttributeRecord secondary_attribute]>
              store);
  delete_resource_of_type_in_account_region service resource_type account region
      urns_to_keep store :=
    (Ok tt, reconciled service resource_type account region urns_to_keep store)
}.

(** Modelled from the spec: the stored set of a scope, the Urns of the
    records a connector holds for (service, resource_type, account_id,
    region); the query side of the connectors is not among the sources. *)
Definition stored_urns (service resource_type account region : string)
    (store : Store) : gset AwsUrn :=
  set_map fst (filter (fun k : AwsUrn * option string =>
                         in_scope service resource_type account region k.1)
                 (dom store)).

(** The Urn a connector call writes under, if it is a write. *)
Definition written_urn (call : ConnectorCall Resource Attribute) : option AwsUrn :=
  match call with
  | WriteResource urn _ => Some urn
  | WriteSecondaryAttribute urn _ _ => Some urn
  | DeleteResourceOfTypeInAccountRegion _ _ _ _ _ => None
  end.
End SpecConnector.

Arguments StoredRecord : clear implicits.

(** ** A small account *)

(** A provider to run the engine on: one account with the services [ec2]
    (resource types [vpc] and [instance]) and [s3] ([bucket]).  [vpc-1] has a
    subnet as subresource and one secondary attribute; [s3] is queried from
    [us-east-1] and reports its resources under two regions. *)
Module Demo.
Record DemoResource := mkRes {
  res_service : string;
  res_type : string;
  res_id : string
}.

#[export] Instance DemoResource_eq_dec : EqDecision DemoResource.
Proof. solve_decision. Defined.

Definition vpc1 := mkRes "ec2" "vpc" "vpc-1".
Definition vpc2 := mkRes "ec2" "vpc" "vpc-2".
Definition subnet1 := mkRes "ec2" "subnet" "subnet-1".
Definition instance1 := mkRes "ec2" "instance" "i-1".

Definition account := "111111111111".

Definition region_string (region : PyValue) : string :=
  match region with PyStr s => s | _ => "" end.

Definition demo_urn (r : DemoResource) (region : PyValue) : AwsUrn :=
  mkUrn account (region_string region) (res_service r) (res_type r) (res_id r).

Definition demo_resources (service_name resource_type : string) (client_args : dict)
    : result (list DemoResource) :=
  if decide (service_name = "ec2" /\ resource_type = "vpc") then Ok [vpc1; vpc2]
  else if decide (service_name = "ec2" /\ resource_type = "instance") then Ok [instance1]
  else Ok [].

Definition demo_subresources (r : DemoResource) : result (list DemoResource) :=
  if decide (r = vpc1) then Ok [subnet1] else Ok [].

Definition demo_attributes (r : DemoResource) : result (list string) :=
  if decide (r = vpc1) then Ok ["VpcEnableDnsSupport"] else Ok [].

Definition demo_regions (service_name : string) (region : PyValue) : list string :=
  if decide (service_name = "s3")
  then (if decide (region = PyStr "us-east-1") then ["us-east-1"; "eu-west-1"] else [])
  else [region_string region].

Definition boto3 : Boto3Interface string DemoResource string := {|
  session_region_name := PyStr "us-east-1";
  enabled_regions := ["us-east-1"; "eu-west-1"];
  account_id := account;
  get_all_resource_services := ["ec2"; "s3"];
  meta_service_name := fun s => s;
  get_service_resource_types := fun s =>
    if decide (s = "ec2") then ["vpc"; "instance"]
    else if decide (s = "s3") then ["bucket"] else [];
  get_resources_of_type := demo_resources;
  get_subresources := demo_subresources;
  load := fun r => Ok r;
  get_secondary_attributes := demo_attributes;
  xform_name_of := fun a => a;
  _get_resource_urn := demo_urn;
  resource_regions_returned_from_api_region := demo_regions
|}.

(** The same account when listing the subresources of [vpc-1] fails. *)
Definition boto3_failing : Boto3Interface string DemoResource string := {|
  session_region_name := session_region_name boto3;
  enabled_regions := enabled_regions boto3;
  account_id := account_id boto3;
  get_all_resource_services := get_all_resource_services boto3;
  meta_service_name := meta_service_name boto3;
  get_service_resource_types := get_service_resource_types boto3;
  get_resources_of_type := get_resources_of_type boto3;
  get_subresources := fun r =>
    if decide (r = vpc1) then Raise (ProviderError 500) else get_subresources boto3 r;
  load := load boto3;
  get_secondary_attributes := get_secondary_attributes boto3;
  xform_name_of := xform_name_of boto3;
  _get_resource_urn := _get_resource_urn boto3;
  resource_regions_returned_from_api_region :=
    resource_regions_returned_from_api_region boto3
|}.

Abbreviation Store := (gmap (AwsUrn * option string) (StoredRecord DemoResource string)).

Definition us_east_1 : PyValue := PyStr "us-east-1".

(** A record left in storage by an earlier pass. *)
Definition vpc0 := mkRes "ec2" "vpc" "vpc-0".

Definition old_store : Store :=
  {[ (demo_urn vpc0 us_east_1, None) := ResourceRecord vpc0 ]}.

(** The keep-list of a pass over the scope (ec2, vpc) in [us-east-1]. *)
Definition vpc_keep : list AwsUrn :=
  [demo_urn vpc1 us_east_1; demo_urn subnet1 us_east_1; demo_urn vpc1 us_east_1;
   demo_urn vpc2 us_east_1].

(** A bucket left in storage by an earlier pass, now gone from the account. *)
Definition bucket0 := mkRes "s3" "bucket" "bucket-0".

Definition bucket_store : Store :=
  {[ (demo_urn bucket0 (PyStr "eu-west-1"), None) := ResourceRecord bucket0 ]}.

(** A [client_args] that only carries a botocore [Config]. *)
Definition config_only : dict := {[ "config" := PyObj 1 ]}.
End Demo.

(** ** More of the behaviour of the engine *)

Section Coverage.
Context {Service Resource Attribute Conn : Type}.
Context (boto3_interface : Boto3Interface Service Resource Attribute).
Context `{!BaseStorageConnector Conn Resource Attribute}.

(** [raises_only P m]: an exception that leaves [m] satisfies [P]. *)
Definition raises_only {A} (P : Exception -> Prop)
    (m : M (Conn:=Conn) (Resource:=Resource) (Attribute:=Attribute) A) : Prop :=
  forall cs e, outcome (m cs) = Raise e -> P e.

(** An exception that one of the collaborators raises: a fetch from the
    provider, or a call on a connector in some state. *)
Definition raised_by_collaborator (e : Exception) : Prop :=
  (exists service_name resource_type client_args,
     get_resources_of_type boto3_interface service_name resource_type client_args
     = Raise e)
  \/ (exists boto3_resource, get_subresources boto3_interface boto3_resource = Raise e)
  \/ (exists subresource, load boto3_interface subresource = Raise e)
  \/ (exists boto3_resource,
        get_secondary_attributes boto3_interface boto3_resource = Raise e)
  \/ (exists (call : ConnectorCall Resource Attribute) (c : Conn),
        (perform call c).1 = Raise e).

(** The calls a run made on the connector at position [i], in order. *)
Definition call_to (i : nat) (ev : Event Resource Attribute)
    : option (ConnectorCall Resource Attribute) :=
  match ev with
  | EvConnector k call => if decide (k = i) then Some call else None
  | _ => None
  end.

Definition calls_to (i : nat) (evs : list (Event Resource Attribute))
    : list (ConnectorCall Resource Attribute) :=
  omap (call_to i) evs.

Definition action_call (a : Action Resource Attribute)
    : option (ConnectorCall Resource Attribute) :=
  match a with
  | ACall call => Some call
  | _ => None
  end.

(** The listing of a scope an event or an action stands for: service,
    resource type and the dict handed to the provider. *)
Definition fetch_of (ev : Event Resource Attribute) : option (string * string * dict) :=
  match ev with
  | EvProvider (GetResourcesOfType service_name resource_type client_args) =>
      Some (service_name, resource_type, client_args)
  | _ => None
  end.

Definition action_fetch (a : Action Resource Attribute)
    : option (string * string * dict) :=
  match a with
  | AProvider (GetResourcesOfType service_name resource_type client_args) =>
      Some (service_name, resource_type, client_args)
  | _ => None
  end.

(** The actions of [write_resources]. *)
Definition all_regions_actions (exclude_resources : option (list string))
    (client_args : option dict) : list (Action Resource Attribute) :=
  ALog LogWritingAllRegions
  :: (enabled_regions boto3_interface
      ≫= fun region_name =>
           region_actions boto3_interface (default [] exclude_resources)
             (Some region_name) client_args).
End Coverage.

(** More of the small account: a backend that can be out of reach, and a
    provider that is denied a listing. *)
Module DemoMore.
Import Demo.

(** A connector that is either a store in reach, which behaves like the
    connector of the specification, or out of reach, and then raises on
    every call. *)
#[export] Instance remote_connector
    : BaseStorageConnector (option Store) DemoResource string := {
  write_resource urn resource c :=
    match c with
    | Some store => (Ok tt, Some (<[(urn, None) := ResourceRecord resource]> store))
    | None => (Raise (ConnectorError 503), None)
    end;
  write_secondary_attribute urn secondary_attribute attribute_type c :=
    match c with
    | Some store =>
        (Ok tt, Some (<[(urn, Some attribute_type)
                        := SecondaryAttributeRecord secondary_attribute]> store))
    | None => (Raise (ConnectorError 503), None)
    end;
  delete_resource_of_type_in_account_region service resource_type account region
      urns_to_keep c :=
    match c with
    | Some store =>
        (Ok tt, Some (reconciled service resource_type account region urns_to_keep store))
    | None => (Raise (ConnectorError 503), None)
    end
}.

(** The same account when the listing of instances is denied. *)
Definition boto3_denied : Boto3Interface string DemoResource string := {|
  session_region_name := session_region_name boto3;
  enabled_regions := enabled_regions boto3;
  account_id := account_id boto3;
  get_all_resource_services := get_all_resource_services boto3;
  meta_service_name := meta_service_name boto3;
  get_service_resource_types := get_service_resource_types boto3;
  get_resources_of_type := fun service_name resource_type client_args =>
    if decide (resource_type = "instance") then Raise (ProviderError 403)
    else get_resources_of_type boto3 service_name resource_type client_args;
  get_subresources := get_subresources boto3;
  load := load boto3;
  get_secondary_attributes := get_secondary_attributes boto3;
  xform_name_of := xform_name_of boto3;
  _get_resource_urn := _get_resource_urn boto3;
  resource_regions_returned_from_api_region :=
    resource_regions_returned_from_api_region boto3
|}.

(** A [client_args] that names a region of its own. *)
Definition with_region : dict :=
  {[ "region_name" := PyStr "ap-south-1"; "config" := PyObj 1 ]}.
End DemoMore.

(** ** The concurrent entry point *)

(** [write_resources_concurrently] is sequential code that hands tasks to a
    thread pool: it logs twice, opens a [ThreadPoolExecutor], and for each
    enabled region obtains a session, builds a [CloudWanderer] on it and
    submits one call.  What is embedded is that code: the sessions it
    obtains and the tasks it submits, in program order.  How the pool
    schedules the tasks, and what [exception_logging_wrapper] (of
    [cloudwanderer.utils]) does with a task that raises, is not in it. *)
Section Concurrent.
Context {Service Resource Attribute Conn Session : Type}.
(** [CloudWandererBoto3Interface(boto3_session=...)] *)
Context (interface_of : Session -> Boto3Interface Service Resource Attribute).
(** The session [boto3.session.Session()] gives inside the constructor of the
    [CloudWanderer] built for the task at a position. *)
Context (default_session : nat -> Session).
Context `{!BaseStorageConnector Conn Resource Attribute}.

(** [CloudWanderer.__init__]: [boto3_session or boto3.session.Session()];
    [None] is a falsy argument, a session object is truthy. *)
Definition init_boto3_session (position : nat) (boto3_session : option Session)
    : Session :=
  match boto3_session with
  | Some session => session
  | None => default_session position
  end.

(** One [executor.submit(exception_logging_wrapper,
    method=cw.write_resources_in_region, exclude_resources=...,
    region_name=..., client_args=...)], [cw] being a [CloudWanderer] on
    [task_boto3_session] and on [self.storage_connectors]. *)
Record RegionTask := mkTask {
  task_boto3_session : Session;
  task_exclude_resources : option (list string);
  task_region_name : string;
  task_client_args : option dict
}.

(** The method of [cw] a task is submitted with. *)
Definition task_method (task : RegionTask)
    : M (Conn:=Conn) (Resource:=Resource) (Attribute:=Attribute) unit :=
  write_resources_in_region (interface_of (task_boto3_session task))
    (task_exclude_resources task) (Some (task_region_name task))
    (task_client_args task).

(** What the submitting thread does, in order.  [PoolRefused] is the
    [ValueError] of [ThreadPoolExecutor] for [max_workers <= 0];
    [PoolJoined] is the end of the [with] block. *)
Inductive PoolEvent :=
| PoolInfo (msg : LogMsg)
| PoolWarning (concurrency : Z)
| PoolCreated (max_workers : Z)
| PoolRefused (max_workers : Z)
| SessionGenerated (call : nat)
| TaskSubmitted (task : RegionTask)
| PoolJoined.

(** The body of the loop over the enabled regions.  [session_generator] is
    [None] for a falsy argument; otherwise it is a callable, and its result
    at the call of a position is a session object or a falsy value
    ([None]). *)
Fixpoint submit_regions (self_boto3_session : Session)
    (session_generator : option (nat -> option Session))
    (exclude_resources : option (list string)) (client_args : option dict)
    (position : nat) (regions : list string) : list PoolEvent :=
  match regions with
  | [] => []
  | region_name :: regions =>
      let generated :=
        match session_generator with
        | Some generator => [SessionGenerated position]
        | None => []
        end in
      let boto3_session :=
        match session_generator with
        | Some generator => generator position
        | None => Some self_boto3_session
        end in
      let cw_session := init_boto3_session position boto3_session in
      generated
      ++ TaskSubmitted (mkTask cw_session exclude_resources region_name client_args)
      :: submit_regions self_boto3_session session_generator exclude_resources
           client_args (S position) regions
  end.

Definition write_resources_concurrently (self_boto3_session : Session)
    (session_generator : option (nat -> option Session))
    (exclude_resources : option (list string)) (client_args : option dict)
    (concurrency : Z) : list PoolEvent :=
  PoolInfo LogWritingAllRegions
  :: PoolWarning concurrency
  :: (if decide (0 < concurrency)%Z
      then PoolCreated concurrency
           :: submit_regions self_boto3_session session_generator exclude_resources
                client_args 0 (enabled_regions (interface_of self_boto3_session))
           ++ [PoolJoined]
      else [PoolRefused concurrency]).

(** The parts of what the submitting thread did. *)
Definition submitted_task (ev : PoolEvent) : option RegionTask :=
  match ev with
  | TaskSubmitted task => Some task
  | _ => None
  end.

Definition generator_call (ev : PoolEvent) : option nat :=
  match ev with
  | SessionGenerated call => Some call
  | _ => None
  end.

Definition pool_created (ev : PoolEvent) : option Z :=
  match ev with
  | PoolCreated max_workers => Some max_workers
  | _ => None
  end.

(** What is left of a task once the pool has run it: nothing is raised into
    the pool; the connectors are as the method left them, the events are
    those of the method, and the exception the method raised, if any, has
    been logged. *)
Record TaskRun := mkTaskRun {
  task_conns : list Conn;
  task_emitted : list (Event Resource Attribute);
  task_logged : option Exception
}.

(** Modelled from the spec: [exception_logging_wrapper] of
    [cloudwanderer.utils], which is not among the sources.  The spec says
    of a task that its failure "is caught at the task boundary, logged, and
    does not cancel or affect other region tasks": the wrapper calls the
    method, and when the method raises it logs the exception and returns. *)
Definition exception_logging_wrapper
    (method : M (Conn:=Conn) (Resource:=Resource) (Attribute:=Attribute) unit)
    (cs : list Conn) : TaskRun :=
  let run := method cs in
  mkTaskRun (conns run) (emitted run)
    (match outcome run with
     | Ok _ => None
     | Raise e => Some e
     end).

(** The submitted tasks run one after the other, in the order of
    submission, on the storage connectors they share: the schedule of a
    pool of one worker.  (With more workers the calls that different tasks
    make on the connectors interleave; that is not modelled.) *)
Fixpoint run_in_turn (tasks : list RegionTask) (cs : list Conn) : list TaskRun :=
  match tasks with
  | [] => []
  | task :: tasks =>
      let run := exception_logging_wrapper (task_method task) cs in
      run :: run_in_turn tasks (task_conns run)
  end.

(** The connectors as the tasks run so far have left them. *)
Definition conns_after (tasks : list RegionTask) (cs : list Conn) : list Conn :=
  foldl (fun cs task => task_conns (exception_logging_wrapper (task_method task) cs))
    cs tasks.

(** The session of the task at a position. *)
Definition session_of_task (self_boto3_session : Session)
    (session_generator : option (nat -> option Session)) (position : nat)
    : Session :=
  match session_generator with
  | Some generator => default (default_session position) (generator position)
  | None => self_boto3_session
  end.
End Concurrent.

(** ** Properties of runs *)

Section Logic.
Context {Conn Resource Attribute : Type}.
Context `{!BaseStorageConnector Conn Resource Attribute}.

#[local] Abbreviation M := (@M Conn Resource Attribute).
#[local] Abbreviation Event := (Event Resource Attribute).
#[local] Abbreviation Action := (Action Resource Attribute).

Implicit Types (acts : list Action) (cs : list Conn).

Lemma bind_raise {A B} (m : M A) (k : A -> M B) cs e :
  outcome (m cs) = Raise e ->
  (m ≫= k) cs = mkRun (Raise e) (conns (m cs)) (emitted (m cs)).
Proof. intros E. unfold mbind, M_bind. by rewrite E. Qed.

Lemma bind_ok {A B} (m : M A) (k : A -> M B) cs a :
  outcome (m cs) = Ok a ->
  (m ≫= k) cs = mkRun (outcome (k a (conns (m cs)))) (conns (k a (conns (m cs))))
                  (emitted (m cs) ++ emitted (k a (conns (m cs)))).
Proof. intros E. unfold mbind, M_bind. by rewrite E. Qed.

Lemma bind_ok_inv {A B} (m : M A) (k : A -> M B) cs b :
  outcome ((m ≫= k) cs) = Ok b ->
  exists a, outcome (m cs) = Ok a /\ outcome (k a (conns (m cs))) = Ok b.
Proof.
  unfold mbind, M_bind. destruct (outcome (m cs)) as [a|e] eqn:E; simpl; [|done].
  intros Hb. by exists a.
Qed.

Lemma replay_app acts1 acts2 (c : Conn) :
  replay (acts1 ++ acts2) c = replay acts2 (replay acts1 c).
Proof. unfold replay. by rewrite foldl_app. Qed.

Lemma replay_nil_fmap cs : replay [] <$> cs = cs.
Proof. apply list_fmap_id. Qed.

Lemma performs_eq {A} (m : M A) acts acts' v v' :
  performs m acts v -> acts = acts' -> v = v' -> performs m acts' v'.
Proof. by intros ? <- <-. Qed.

Lemma performs_ret {A} (v : A) : performs (mret v) [] v.
Proof.
  intros cs. split_and!; [done..|]. intros a [= <-].
  by rewrite replay_nil_fmap.
Qed.

Lemma performs_bind {A B} (m : M A) (k : A -> M B) acts1 acts2 v w :
  performs m acts1 v -> performs (k v) acts2 w ->
  performs (m ≫= k) (acts1 ++ acts2) w.
Proof.
  intros Hm Hk cs. destruct (Hm cs) as (Hl & Hp & Hok).
  rewrite bind_app.
  destruct (outcome (m cs)) as [a|e] eqn:E.
  - rewrite (bind_ok _ _ _ _ E); simpl.
    destruct (Hok a eq_refl) as (-> & He & Hc).
    destruct (Hk (conns (m cs))) as (Hl2 & Hp2 & Hok2).
    rewrite Hl in *. rewrite He. split_and!; [done|by apply prefix_app|].
    intros b Eb. destruct (Hok2 b Eb) as (-> & He2 & Hc2).
    rewrite He2, Hc2, Hc, <- list_fmap_compose. split_and!; [done..|].
    apply list_fmap_ext. intros _ c _. simpl. by rewrite replay_app.
  - rewrite (bind_raise _ _ _ _ E); simpl.
    split_and!; [done|by apply prefix_app_r|done].
Qed.

Lemma performs_log msg : performs (log msg) [ALog msg] tt.
Proof.
  intros cs. split_and!; [done..|]. intros [] _.
  by rewrite replay_nil_fmap.
Qed.

Lemma performs_provider {A} call (r : result A) (d : A) :
  performs (provider call r) [AProvider call] (ok_or d r).
Proof.
  intros cs. split_and!; [done..|]. simpl. intros a ->.
  by rewrite replay_nil_fmap.
Qed.

Lemma performs_getitem (d : dict) key v :
  d !! key = Some v -> performs (getitem d key) [] v.
Proof.
  intros E cs. unfold getitem. rewrite E. split_and!; [done..|].
  intros a [= <-]. by rewrite replay_nil_fmap.
Qed.

Lemma call_each_spec call i cs :
  length (conns (call_each call i cs)) = length cs
  /\ emitted (call_each call i cs)
     `prefix_of` ((fun j => EvConnector j call) <$> seq i (length cs))
  /\ forall a, outcome (call_each call i cs) = Ok a ->
       emitted (call_each call i cs)
       = (fun j => EvConnector j call) <$> seq i (length cs)
       /\ conns (call_each call i cs) = (fun c => (perform call c).2) <$> cs.
Proof.
  revert i. induction cs as [|c cs IH]; intros i; simpl; [done|].
  destruct (IH (S i)) as (Hl & Hp & Hok).
  destruct (perform call c).1 as [[]|e]; simpl.
  - split_and!; [by rewrite Hl|by apply prefix_cons|].
    intros a E. destruct (Hok a E) as [-> ->]. done.
  - split_and!; [done| |done]. apply prefix_cons, prefix_nil.
Qed.

Lemma performs_for_each_connector call :
  performs (for_each_connector call) [ACall call] tt.
Proof.
  intros cs. destruct (call_each_spec call 0 cs) as (Hl & Hp & Hok).
  unfold for_each_connector. simpl. rewrite app_nil_r.
  split_and!; [done..|]. intros [] E. destruct (Hok _ E) as [-> ->]. done.
Qed.

Lemma performs_for_each {A B} (l : list A) (body : A -> M B)
    (acts : A -> list Action) val :
  (forall x, x ∈ l -> performs (body x) (acts x) (val x)) ->
  performs (for_each l body) (l ≫= acts) (val <$> l).
Proof.
  induction l as [|x l IH]; intros Hbody; cbn [for_each].
  - apply performs_ret.
  - rewrite bind_cons, fmap_cons, <- (app_nil_r (l ≫= acts)).
    eapply performs_bind; [apply Hbody; left|].
    eapply performs_bind; [apply IH; intros; apply Hbody; by right|].
    apply performs_ret.
Qed.

(** *** Outcomes that do not depend on the connectors *)

Lemma stateless_ret {A} (v : A) : stateless (mret v : M A).
Proof. done. Qed.

Lemma stateless_bind {A B} (m : M A) (k : A -> M B) :
  stateless m -> (forall a, stateless (k a)) -> stateless (m ≫= k).
Proof.
  intros Hm Hk cs cs'. unfold mbind, M_bind. rewrite (Hm cs cs').
  destruct (outcome (m cs')); simpl; [apply Hk|done].
Qed.

Lemma stateless_log msg : stateless (log msg : M unit).
Proof. done. Qed.

Lemma stateless_provider {A} call (r : result A) : stateless (provider call r : M A).
Proof. done. Qed.

Lemma stateless_getitem (d : dict) key : stateless (getitem d key : M PyValue).
Proof. intros cs cs'. unfold getitem. by destruct (d !! key). Qed.

Lemma call_each_never_raises call i cs :
  never_raises -> outcome (call_each call i cs) = Ok tt.
Proof.
  intros Hnr. revert i. induction cs as [|c cs IH]; intros i; simpl; [done|].
  rewrite Hnr. simpl. apply IH.
Qed.

Lemma stateless_for_each_connector call :
  never_raises -> stateless (for_each_connector call).
Proof.
  intros Hnr cs cs'. unfold for_each_connector.
  by rewrite !call_each_never_raises.
Qed.

Lemma stateless_for_each {A B} (l : list A) (body : A -> M B) :
  (forall x, stateless (body x)) -> stateless (for_each l body).
Proof.
  intros Hbody. induction l as [|x l IH]; simpl; [done|].
  apply stateless_bind; [done|]. intros b.
  apply stateless_bind; [done|]. intros bs. done.
Qed.
End Logic.

(** ** The scope pass *)

Section ScopePass.
Context {Service Resource Attribute Conn : Type}.
Context (boto3_interface : Boto3Interface Service Resource Attribute).
Context `{!BaseStorageConnector Conn Resource Attribute}.

#[local] Abbreviation M := (@M Conn Resource Attribute).
#[local] Abbreviation Event := (Event Resource Attribute).
#[local] Abbreviation Action := (Action Resource Attribute).

Lemma concat_fmap_bind {A B} (f : A -> list B) (l : list A) :
  concat (f <$> l) = l ≫= f.
Proof.
  induction l as [|x l IH]; [done|].
  rewrite fmap_cons, bind_cons. cbn [concat]. by rewrite IH.
Qed.

Lemma performs_write_resource boto3_resource region :
  performs (_write_resource boto3_interface boto3_resource region)
    (write_resource_actions boto3_interface region boto3_resource)
    (write_resource_urns boto3_interface region boto3_resource).
Proof.
  unfold _write_resource.
  eapply performs_eq.
  - eapply performs_bind; [apply performs_for_each_connector|].
    eapply performs_bind; [apply (performs_provider _ _ [])|].
    eapply performs_bind; [|apply performs_ret].
    apply performs_for_each
      with (acts := subresource_actions boto3_interface region)
           (val := fun s => _get_resource_urn boto3_interface (loaded boto3_interface s)
                              region).
    intros s _. eapply performs_eq.
    + eapply performs_bind; [apply (performs_provider _ _ s)|].
      eapply performs_bind; [apply performs_for_each_connector|].
      apply performs_ret.
    + done.
    + done.
  - unfold write_resource_actions, subresources_of. simpl. by rewrite app_nil_r.
  - done.
Qed.

Lemma performs_write_secondary_attributes boto3_resource region :
  performs (_write_secondary_attributes boto3_interface boto3_resource region)
    (secondary_attributes_actions boto3_interface region boto3_resource)
    (secondary_attributes_urns boto3_interface region boto3_resource).
Proof.
  unfold _write_secondary_attributes.
  eapply performs_eq.
  - eapply performs_bind; [apply (performs_provider _ _ [])|].
    apply performs_for_each
      with (acts := attribute_actions boto3_interface region boto3_resource)
           (val := fun _ => _get_resource_urn boto3_interface boto3_resource region).
    intros a _. eapply performs_eq.
    + eapply performs_bind; [apply performs_log|].
      eapply performs_bind; [apply performs_for_each_connector|].
      apply performs_ret.
    + done.
    + done.
  - done.
  - done.
Qed.

Lemma performs_write_one region boto3_resource :
  performs (write_one boto3_interface region boto3_resource)
    (write_one_actions boto3_interface region boto3_resource)
    (write_one_urns boto3_interface region boto3_resource).
Proof.
  unfold write_one. eapply performs_eq.
  - eapply performs_bind; [apply performs_write_resource|].
    eapply performs_bind; [apply performs_write_secondary_attributes|].
    apply performs_ret.
  - unfold write_one_actions. by rewrite app_nil_r.
  - done.
Qed.

Lemma performs_clean_resources_in_region service_name resource_type region_name urns :
  performs (_clean_resources_in_region boto3_interface service_name resource_type
              region_name urns)
    [ACall (clean_call boto3_interface service_name resource_type urns region_name)] tt.
Proof. apply performs_for_each_connector. Qed.

Lemma performs_clean_regions service_name resource_type regions urns :
  performs (clean_regions boto3_interface service_name resource_type regions urns)
    (regions ≫= clean_actions boto3_interface service_name resource_type urns) tt.
Proof.
  unfold clean_regions. eapply performs_eq.
  - eapply performs_bind; [|apply performs_ret].
    apply performs_for_each
      with (acts := clean_actions boto3_interface service_name resource_type urns)
           (val := fun _ => tt).
    intros region_name _. eapply performs_eq.
    + eapply performs_bind; [apply performs_log|].
      apply performs_clean_resources_in_region.
    + done.
    + done.
  - by rewrite app_nil_r.
  - done.
Qed.

(** The loop over the resources of a scope. *)
Lemma performs_write_loop region resources :
  performs (for_each resources (write_one boto3_interface region))
    (resources ≫= write_one_actions boto3_interface region)
    (write_one_urns boto3_interface region <$> resources).
Proof. apply performs_for_each. intros r _. apply performs_write_one. Qed.

Lemma performs_scope service_name resource_type region_name client_args region :
  type_client_args boto3_interface region_name client_args !! "region_name"
  = Some region ->
  performs (write_resources_of_type_in_region boto3_interface service_name
              resource_type region_name client_args)
    (scope_actions boto3_interface service_name resource_type
       (type_client_args boto3_interface region_name client_args) region) tt.
Proof.
  intros Hregion. unfold write_resources_of_type_in_region.
  eapply performs_eq.
  - eapply performs_bind; [by apply performs_getitem|].
    eapply performs_bind; [apply performs_log|].
    eapply performs_bind; [apply (performs_provider _ _ [])|].
    eapply performs_bind; [apply performs_write_loop|].
    apply performs_clean_regions.
  - unfold scope_actions, scope_write_actions, scope_clean_actions, scope_urns,
      resources_of. simpl. by rewrite concat_fmap_bind.
  - done.
Qed.

(** Without a ['region_name'] to read, the pass raises before anything
    else happens. *)
Lemma scope_key_error service_name resource_type region_name client_args cs :
  type_client_args boto3_interface region_name client_args !! "region_name" = None ->
  write_resources_of_type_in_region boto3_interface service_name resource_type
    region_name client_args cs
  = mkRun (Raise (KeyError "region_name")) cs [].
Proof.
  intros Hnone. unfold write_resources_of_type_in_region.
  rewrite (bind_raise _ _ _ (KeyError "region_name")).
  - unfold getitem. by rewrite Hnone.
  - unfold getitem. by rewrite Hnone.
Qed.
End ScopePass.

(** ** The events of a scope pass *)

Section ScopeTrace.
Context {Service Resource Attribute Conn : Type}.
Context (boto3_interface : Boto3Interface Service Resource Attribute).
Context `{!BaseStorageConnector Conn Resource Attribute}.

#[local] Abbreviation Event := (Event Resource Attribute).
#[local] Abbreviation Action := (Action Resource Attribute).
#[local] Abbreviation urn_of := (_get_resource_urn boto3_interface).

Implicit Types (acts : list Action) (ev : Event).

Lemma connector_event_expand n i call acts :
  EvConnector i call ∈ acts ≫= expand n <-> i < n /\ ACall call ∈ acts.
Proof.
  rewrite list_elem_of_bind. split.
  - intros (a & Hin & Ha). destruct a as [msg|pc|call']; simpl in Hin.
    + set_unfold in Hin. by destruct Hin as [|[]].
    + set_unfold in Hin. by destruct Hin as [|[]].
    + unfold on_all in Hin. set_unfold in Hin.
      destruct Hin as (j & [= -> ->] & Hj). split; [lia|done].
  - intros [Hi Ha]. exists (ACall call). split; [|done].
    simpl. unfold on_all. set_unfold. exists i. split; [done|lia].
Qed.

Lemma log_event_expand n msg acts :
  EvLog msg ∈ acts ≫= expand n <-> ALog msg ∈ acts.
Proof.
  rewrite list_elem_of_bind. split.
  - intros (a & Hin & Ha). destruct a as [msg'|pc|call']; simpl in Hin.
    + set_unfold in Hin. by destruct Hin as [[= ->]|[]].
    + set_unfold in Hin. by destruct Hin as [|[]].
    + unfold on_all in Hin. set_unfold in Hin. by destruct Hin as (j & ? & _).
  - intros Ha. exists (ALog msg). split; [|done]. simpl. by left.
Qed.

Lemma provider_event_expand n pc acts :
  EvProvider pc ∈ acts ≫= expand n <-> AProvider pc ∈ acts.
Proof.
  rewrite list_elem_of_bind. split.
  - intros (a & Hin & Ha). destruct a as [msg'|pc'|call']; simpl in Hin.
    + set_unfold in Hin. by destruct Hin as [|[]].
    + set_unfold in Hin. by destruct Hin as [[= ->]|[]].
    + unfold on_all in Hin. set_unfold in Hin. by destruct Hin as (j & ? & _).
  - intros Ha. exists (AProvider pc). split; [|done]. simpl. by left.
Qed.

(** The connector calls of the loop body, for one resource. *)
Lemma call_in_write_one region boto3_resource call :
  ACall call ∈ write_one_actions boto3_interface region boto3_resource <->
  call = WriteResource (urn_of boto3_resource region) boto3_resource
  \/ (exists subresource,
        subresource ∈ subresources_of boto3_interface boto3_resource
        /\ call = WriteResource (urn_of (loaded boto3_interface subresource) region)
                    (loaded boto3_interface subresource))
  \/ (exists secondary_attribute,
        secondary_attribute ∈ secondary_attributes_of boto3_interface boto3_resource
        /\ call = WriteSecondaryAttribute (urn_of boto3_resource region)
                    secondary_attribute
                    (xform_name_of boto3_interface secondary_attribute)).
Proof.
  unfold write_one_actions, write_resource_actions, secondary_attributes_actions,
    subresource_actions, attribute_actions.
  set_unfold. naive_solver.
Qed.

(** The Urns the loop body yields are those of the resource and of its
    subresources; a secondary attribute yields the Urn of its resource
    again. *)
Lemma urn_in_write_one region boto3_resource urn :
  urn ∈ write_one_urns boto3_interface region boto3_resource <->
  urn ∈ write_resource_urns boto3_interface region boto3_resource.
Proof.
  unfold write_one_urns, secondary_attributes_urns, write_resource_urns.
  set_unfold. naive_solver.
Qed.

Lemma urn_in_write_resource_urns region boto3_resource urn :
  urn ∈ write_resource_urns boto3_interface region boto3_resource <->
  exists resource,
    ACall (WriteResource urn resource)
    ∈ write_one_actions boto3_interface region boto3_resource.
Proof.
  unfold write_resource_urns. split.
  - intros Hu. set_unfold in Hu. destruct Hu as [->|(s & -> & Hs)].
    + exists boto3_resource. apply call_in_write_one. by left.
    + exists (loaded boto3_interface s). apply call_in_write_one. right; left.
      by exists s.
  - intros (resource & Hc). apply call_in_write_one in Hc.
    destruct Hc as [[= -> ->]|[(s & Hs & [= -> ->])|(a & _ & [=])]].
    + by left.
    + right. apply list_elem_of_fmap. by exists s.
Qed.
End ScopeTrace.

Section ScopeClaims.
Context {Service Resource Attribute Conn : Type}.
Context (boto3_interface : Boto3Interface Service Resource Attribute).
Context `{!BaseStorageConnector Conn Resource Attribute}.

#[local] Abbreviation Event := (Event Resource Attribute).
#[local] Abbreviation Action := (Action Resource Attribute).
#[local] Abbreviation urn_of := (_get_resource_urn boto3_interface).
#[local] Abbreviation scope_pass :=
  (write_resources_of_type_in_region (Conn:=Conn) boto3_interface).

Implicit Types (acts : list Action) (ev : Event) (cs : list Conn).

Lemma prefix_app_cover {A} (l l1 l2 : list A) x :
  l `prefix_of` l1 ++ l2 -> x ∈ l -> x ∉ l1 -> l1 `prefix_of` l.
Proof.
  intros Hp Hx Hnot.
  destruct (prefix_weak_total l l1 (l1 ++ l2)) as [H1|H1];
    [done|by apply prefix_app_r| |done].
  destruct Hnot. by eapply elem_of_prefix.
Qed.

Lemma call_in_scope_write service_name resource_type client_args region call :
  ACall call ∈ scope_write_actions boto3_interface service_name resource_type
                 client_args region <->
  exists boto3_resource,
    boto3_resource ∈ resources_of boto3_interface service_name resource_type client_args
    /\ ACall call ∈ write_one_actions boto3_interface region boto3_resource.
Proof.
  unfold scope_write_actions. rewrite !elem_of_cons, list_elem_of_bind. split.
  - intros [[=]|[[=]|(r & ? & ?)]]. by exists r.
  - intros (r & ? & ?). right; right. by exists r.
Qed.

Lemma call_in_scope_clean service_name resource_type client_args region call :
  ACall call ∈ scope_clean_actions boto3_interface service_name resource_type
                 client_args region <->
  exists region_name,
    region_name ∈ resource_regions_returned_from_api_region boto3_interface
                    service_name region
    /\ call = clean_call boto3_interface service_name resource_type
                (scope_urns boto3_interface region
                   (resources_of boto3_interface service_name resource_type
                      client_args))
                region_name.
Proof.
  unfold scope_clean_actions. rewrite list_elem_of_bind. split.
  - intros (rn & Hc & Hrn). unfold clean_actions in Hc.
    rewrite !elem_of_cons in Hc.
    destruct Hc as [[=]|[[= ->]|Hc]]; [|by apply elem_of_nil in Hc]. by exists rn.
  - intros (rn & Hrn & ->). exists rn. split; [|done].
    unfold clean_actions. right; left.
Qed.

Lemma scope_write_no_delete service_name resource_type client_args region n ev :
  ev ∈ scope_write_actions boto3_interface service_name resource_type client_args
         region ≫= expand n ->
  is_delete ev = false.
Proof.
  destruct ev as [msg|pc|i call]; [done..|]. rewrite connector_event_expand.
  intros [_ Hc]. apply call_in_scope_write in Hc as (r & _ & Hc).
  apply call_in_write_one in Hc. by destruct Hc as [->|[(s & _ & ->)|(a & _ & ->)]].
Qed.

Lemma scope_clean_no_write service_name resource_type client_args region n ev :
  ev ∈ scope_clean_actions boto3_interface service_name resource_type client_args
         region ≫= expand n ->
  is_write ev = false.
Proof.
  destruct ev as [msg|pc|i call]; [done..|]. rewrite connector_event_expand.
  intros [_ Hc]. by apply call_in_scope_clean in Hc as (r & _ & ->).
Qed.

(** The Urns in [urns] are the Urns the pass writes resources under. *)
Lemma scope_urns_written service_name resource_type client_args region urn :
  urn ∈ scope_urns boto3_interface region
          (resources_of boto3_interface service_name resource_type client_args) <->
  exists resource,
    ACall (WriteResource urn resource)
    ∈ scope_write_actions boto3_interface service_name resource_type client_args
        region.
Proof.
  unfold scope_urns. rewrite list_elem_of_bind. split.
  - intros (r & Hu & Hr). apply urn_in_write_one, urn_in_write_resource_urns in Hu.
    destruct Hu as (resource & Hc). exists resource.
    apply call_in_scope_write. by exists r.
  - intros (resource & Hc). apply call_in_scope_write in Hc as (r & Hr & Hc).
    exists r. split; [|done].
    apply urn_in_write_one, urn_in_write_resource_urns. by exists resource.
Qed.

Lemma scope_emitted_prefix service_name resource_type region_name client_args region cs :
  type_client_args boto3_interface region_name client_args !! "region_name"
  = Some region ->
  emitted (scope_pass service_name resource_type region_name client_args cs)
  `prefix_of`
    (scope_write_actions boto3_interface service_name resource_type
       (type_client_args boto3_interface region_name client_args) region
     ≫= expand (length cs))
    ++ (scope_clean_actions boto3_interface service_name resource_type
          (type_client_args boto3_interface region_name client_args) region
        ≫= expand (length cs)).
Proof.
  intros Hregion.
  destruct (performs_scope boto3_interface service_name resource_type region_name
              client_args region Hregion cs) as (_ & Hp & _).
  unfold scope_actions in Hp. by rewrite bind_app in Hp.
Qed.

Lemma scope_emitted_ok service_name resource_type region_name client_args region cs a :
  type_client_args boto3_interface region_name client_args !! "region_name"
  = Some region ->
  outcome (scope_pass service_name resource_type region_name client_args cs) = Ok a ->
  emitted (scope_pass service_name resource_type region_name client_args cs)
  = (scope_write_actions boto3_interface service_name resource_type
       (type_client_args boto3_interface region_name client_args) region
     ≫= expand (length cs))
    ++ (scope_clean_actions boto3_interface service_name resource_type
          (type_client_args boto3_interface region_name client_args) region
        ≫= expand (length cs)).
Proof.
  intros Hregion Hok.
  destruct (performs_scope boto3_interface service_name resource_type region_name
              client_args region Hregion cs) as (_ & _ & H).
  destruct (H a Hok) as (_ & He & _).
  unfold scope_actions in He. by rewrite bind_app in He.
Qed.

(** C1.  In a pass of [write_resources_of_type_in_region], whenever a
    connector is handed a keep-list by reconciliation, the Urns in that list
    are exactly the Urns under which the pass wrote a resource or a
    subresource to that connector; and a secondary attribute is written
    under the Urn of a resource the pass wrote, so that it adds no Urn of
    its own to the keep-set. *)
Theorem keep_set_is_written_urns service_name resource_type region_name client_args cs
    i service resource_type' account region' urns_to_keep :
  let run := scope_pass service_name resource_type region_name client_args cs in
  EvConnector i (DeleteResourceOfTypeInAccountRegion service resource_type' account
                   region' urns_to_keep) ∈ emitted run ->
  (forall urn,
     urn ∈ urns_to_keep <->
     exists resource, EvConnector i (WriteResource urn resource) ∈ emitted run)
  /\ (forall j urn secondary_attribute attribute_type,
        EvConnector j (WriteSecondaryAttribute urn secondary_attribute attribute_type)
        ∈ emitted run ->
        urn ∈ urns_to_keep
        /\ exists resource, EvConnector j (WriteResource urn resource) ∈ emitted run).
Proof.
  intros run Hdel. subst run.
  destruct (type_client_args boto3_interface region_name client_args !! "region_name")
    as [region|] eqn:Hregion;
    [|rewrite scope_key_error in Hdel by done; by apply elem_of_nil in Hdel].
  pose proof (scope_emitted_prefix service_name resource_type region_name client_args
                region cs Hregion) as Hp.
  set (run := scope_pass _ _ _ _ _) in *.
  set (ca := type_client_args _ _ _) in *.
  set (W := scope_write_actions _ _ _ _ _ ≫= _) in *.
  set (C := scope_clean_actions _ _ _ _ _ ≫= _) in *.
  assert (Hdel' := elem_of_prefix _ _ _ Hdel Hp).
  assert (HnotW : EvConnector i (DeleteResourceOfTypeInAccountRegion service
                    resource_type' account region' urns_to_keep) ∉ W).
  { intros HW. by apply scope_write_no_delete in HW. }
  assert (HW : W `prefix_of` emitted run) by (by eapply prefix_app_cover).
  apply elem_of_app in Hdel' as [?|HC]; [done|].
  apply connector_event_expand in HC as [Hi HC].
  apply call_in_scope_clean in HC as (rn & Hrn & [= -> -> -> -> ->]).
  assert (Hin : forall ev, ev ∈ emitted run -> is_write ev = true -> ev ∈ W).
  { intros ev Hev Hw. apply (elem_of_prefix _ _ _ Hev) in Hp.
    apply elem_of_app in Hp as [?|HC]; [done|].
    apply scope_clean_no_write in HC. congruence. }
  assert (Hurn : forall urn j, j < length cs ->
            urn ∈ scope_urns boto3_interface region
                    (resources_of boto3_interface service_name resource_type ca) <->
            exists resource, EvConnector j (WriteResource urn resource) ∈ emitted run).
  { intros urn j Hj. rewrite scope_urns_written. split.
    - intros (resource & Hc). exists resource. eapply elem_of_prefix; [|exact HW].
      apply connector_event_expand. done.
    - intros (resource & Hev). exists resource. apply Hin in Hev; [|done].
      by apply connector_event_expand in Hev as [_ ?]. }
  split.
  - intros urn. by apply Hurn.
  - intros j urn a ty Hev. apply Hin in Hev; [|done].
    apply connector_event_expand in Hev as [Hj Hc].
    apply call_in_scope_write in Hc as (r & Hr & Hc).
    apply call_in_write_one in Hc as [[=]|[(s & _ & [=])|(a' & Ha & [= -> -> ->])]].
    assert (Hk : urn_of r region
                 ∈ scope_urns boto3_interface region
                     (resources_of boto3_interface service_name resource_type ca)).
    { apply scope_urns_written. exists r. apply call_in_scope_write.
      exists r. split; [done|]. apply call_in_write_one. by left. }
    split; [done|]. by apply Hurn.
Qed.

(** C4.  A pass that queried the API of [region] and returned has issued
    its reconciliation deletes, on every connector, under exactly the
    regions that [resource_regions_returned_from_api_region] reports for
    that API region -- whether or not they are the region queried -- and
    each with the keep-list of the pass. *)
Theorem reconciled_under_returned_regions service_name resource_type region_name
    client_args cs region :
  let run := scope_pass service_name resource_type region_name client_args cs in
  type_client_args boto3_interface region_name client_args !! "region_name"
  = Some region ->
  outcome run = Ok tt ->
  forall i service resource_type' account region' urns_to_keep,
    EvConnector i (DeleteResourceOfTypeInAccountRegion service resource_type' account
                     region' urns_to_keep) ∈ emitted run
    <-> i < length cs
        /\ region' ∈ resource_regions_returned_from_api_region boto3_interface
                       service_name region
        /\ service = service_name /\ resource_type' = resource_type
        /\ account = account_id boto3_interface
        /\ urns_to_keep
           = scope_urns boto3_interface region
               (resources_of boto3_interface service_name resource_type
                  (type_client_args boto3_interface region_name client_args)).
Proof.
  intros run Hregion Hok i service resource_type' account region' urns_to_keep.
  subst run. rewrite (scope_emitted_ok _ _ _ _ _ _ _ Hregion Hok), elem_of_app.
  split.
  - intros [HW|HC]; [by apply scope_write_no_delete in HW|].
    apply connector_event_expand in HC as [Hi HC].
    by apply call_in_scope_clean in HC as (rn & Hrn & [= -> -> -> -> ->]).
  - intros (Hi & Hrn & -> & -> & -> & ->). right.
    apply connector_event_expand. split; [done|].
    apply call_in_scope_clean. by exists region'.
Qed.

Lemma list_bind_assoc {A B C} (f : A -> list B) (g : B -> list C) (l : list A) :
  (l ≫= f) ≫= g = l ≫= (fun x => f x ≫= g).
Proof.
  induction l as [|x l IH]; [done|].
  by rewrite !bind_cons, bind_app, IH.
Qed.

(** The events of the loop body for one resource, on [n] connectors. *)
Lemma write_one_events region boto3_resource n :
  write_one_actions boto3_interface region boto3_resource ≫= expand n
  = on_all n (WriteResource (urn_of boto3_resource region) boto3_resource)
    ++ EvProvider (GetSubresources boto3_resource)
    :: (subresources_of boto3_interface boto3_resource
        ≫= fun subresource =>
             EvProvider (Load subresource)
             :: on_all n (WriteResource
                            (urn_of (loaded boto3_interface subresource) region)
                            (loaded boto3_interface subresource)))
    ++ EvProvider (GetSecondaryAttributes boto3_resource)
    :: (secondary_attributes_of boto3_interface boto3_resource
        ≫= fun secondary_attribute =>
             EvLog (LogFetchingAttribute
                      (xform_name_of boto3_interface secondary_attribute) region)
             :: on_all n (WriteSecondaryAttribute (urn_of boto3_resource region)
                            secondary_attribute
                            (xform_name_of boto3_interface secondary_attribute))).
Proof.
  unfold write_one_actions, write_resource_actions, secondary_attributes_actions.
  rewrite bind_app, !bind_cons, !list_bind_assoc. cbn [expand].
  rewrite <- !app_assoc. do 2 f_equal. cbn [app]. f_equal.
  - apply list_bind_ext; [|done]. intros s. unfold subresource_actions.
    rewrite !bind_cons. cbn [expand]. simpl. by rewrite app_nil_r.
  - f_equal. apply list_bind_ext; [|done]. intros a. unfold attribute_actions.
    rewrite !bind_cons. cbn [expand]. simpl. by rewrite app_nil_r.
Qed.

Lemma scope_clean_events service_name resource_type client_args region n :
  scope_clean_actions boto3_interface service_name resource_type client_args region
  ≫= expand n
  = resource_regions_returned_from_api_region boto3_interface service_name region
    ≫= fun region_name =>
         EvLog (LogDeleting service_name resource_type region_name)
         :: on_all n (clean_call boto3_interface service_name resource_type
                        (scope_urns boto3_interface region
                           (resources_of boto3_interface service_name resource_type
                              client_args))
                        region_name).
Proof.
  unfold scope_clean_actions. rewrite list_bind_assoc.
  apply list_bind_ext; [|done]. intros rn. unfold clean_actions.
  rewrite !bind_cons. cbn [expand]. simpl. by rewrite app_nil_r.
Qed.

Lemma scope_write_events service_name resource_type client_args region n :
  scope_write_actions boto3_interface service_name resource_type client_args region
  ≫= expand n
  = [EvLog (LogFetching service_name resource_type region);
     EvProvider (GetResourcesOfType service_name resource_type client_args)]
    ++ (resources_of boto3_interface service_name resource_type client_args
        ≫= fun boto3_resource =>
             write_one_actions boto3_interface region boto3_resource ≫= expand n).
Proof.
  unfold scope_write_actions. by rewrite !bind_cons, list_bind_assoc.
Qed.

(** Once a delete has been emitted, no write follows. *)
Lemma no_write_after_delete service_name resource_type region_name client_args cs
    l1 ev l2 :
  emitted (scope_pass service_name resource_type region_name client_args cs)
  = l1 ++ ev :: l2 ->
  is_delete ev = true -> Forall (fun ev' => is_write ev' = false) l2.
Proof.
  intros Hsplit Hdel.
  destruct (type_client_args boto3_interface region_name client_args !! "region_name")
    as [region|] eqn:Hregion;
    [|rewrite scope_key_error in Hsplit by done; by destruct l1].
  destruct (scope_emitted_prefix service_name resource_type region_name client_args
              region cs Hregion) as [k Hk].
  rewrite Hsplit, <- app_assoc in Hk. cbn [app] in Hk.
  assert (exists k', scope_clean_actions boto3_interface service_name
                  resource_type (type_client_args boto3_interface region_name
                                   client_args) region ≫= expand (length cs)
                = k' ++ l2 ++ k) as [k' Hk'].
  { symmetry in Hk. apply app_eq_inv in Hk as [(k' & Hl1 & HC)|(k' & HW & HC)].
    - exists (k' ++ [ev]). rewrite HC, <- app_assoc. done.
    - destruct k' as [|ev' k'].
      + simpl in HC. rewrite <- HC. by exists [ev].
      + injection HC as <- HC.
        assert (Hin : ev ∈ scope_write_actions boto3_interface service_name
                        resource_type (type_client_args boto3_interface region_name
                                         client_args) region ≫= expand (length cs)).
        { rewrite HW. apply elem_of_app. right. left. }
        apply scope_write_no_delete in Hin. congruence. }
  apply Forall_forall. intros ev' Hev'.
  apply (scope_clean_no_write service_name resource_type
           (type_client_args boto3_interface region_name client_args) region
           (length cs)).
  rewrite Hk'. apply elem_of_app. right. apply elem_of_app. by left.
Qed.

(** C7.  The events of a pass over a scope, on [n] connectors, are a prefix
    of -- and for a pass that returns, are exactly -- the following: for
    each resource in turn, its write on every connector, only then the
    listing, loading and writing (on every connector) of each of its
    subresources, then its secondary attributes; and after all the
    resources, the reconciliation deletes.  So every resource is written to
    every connector before any of its subresources, and no write follows a
    delete. *)
Theorem writes_ordered_before_delete service_name resource_type region_name
    client_args cs region :
  let run := scope_pass service_name resource_type region_name client_args cs in
  let n := length cs in
  let client_args' := type_client_args boto3_interface region_name client_args in
  let resources :=
    resources_of boto3_interface service_name resource_type client_args' in
  let resource_writes boto3_resource :=
    on_all n (WriteResource (urn_of boto3_resource region) boto3_resource) in
  let subresource_writes boto3_resource :=
    subresources_of boto3_interface boto3_resource
    ≫= fun subresource =>
         EvProvider (Load subresource)
         :: on_all n (WriteResource
                        (urn_of (loaded boto3_interface subresource) region)
                        (loaded boto3_interface subresource)) in
  let attribute_writes boto3_resource :=
    secondary_attributes_of boto3_interface boto3_resource
    ≫= fun secondary_attribute =>
         EvLog (LogFetchingAttribute
                  (xform_name_of boto3_interface secondary_attribute) region)
         :: on_all n (WriteSecondaryAttribute (urn_of boto3_resource region)
                        secondary_attribute
                        (xform_name_of boto3_interface secondary_attribute)) in
  let deletes :=
    resource_regions_returned_from_api_region boto3_interface service_name region
    ≫= fun region_name =>
         EvLog (LogDeleting service_name resource_type region_name)
         :: on_all n (DeleteResourceOfTypeInAccountRegion service_name resource_type
                        (account_id boto3_interface) region_name
                        (scope_urns boto3_interface region resources)) in
  let pass_events :=
    [EvLog (LogFetching service_name resource_type region);
     EvProvider (GetResourcesOfType service_name resource_type client_args')]
    ++ (resources ≫= fun boto3_resource =>
          resource_writes boto3_resource
          ++ EvProvider (GetSubresources boto3_resource)
          :: subresource_writes boto3_resource
          ++ EvProvider (GetSecondaryAttributes boto3_resource)
          :: attribute_writes boto3_resource)
    ++ deletes in
  client_args' !! "region_name" = Some region ->
  emitted run `prefix_of` pass_events
  /\ (outcome run = Ok tt -> emitted run = pass_events)
  /\ (forall l1 ev l2,
        emitted run = l1 ++ ev :: l2 -> is_delete ev = true ->
        Forall (fun ev' => is_write ev' = false) l2).
Proof.
  intros run n client_args' resources resource_writes subresource_writes
    attribute_writes deletes pass_events Hregion.
  assert (Hevents :
    pass_events
    = (scope_write_actions boto3_interface service_name resource_type client_args'
         region ≫= expand n)
      ++ (scope_clean_actions boto3_interface service_name resource_type
            client_args' region ≫= expand n)).
  { subst pass_events. rewrite scope_write_events, scope_clean_events.
    rewrite <- app_assoc. do 2 f_equal.
    apply list_bind_ext; [|done]. intros r. by rewrite write_one_events. }
  rewrite Hevents. split_and!.
  - by apply scope_emitted_prefix.
  - intros Hok. by eapply scope_emitted_ok.
  - intros l1 ev l2. apply no_write_after_delete.
Qed.

Lemma getitem_some (d : dict) key v cs :
  d !! key = Some v ->
  getitem (Resource:=Resource) (Attribute:=Attribute) d key cs = mkRun (Ok v) cs [].
Proof. intros E. unfold getitem. by rewrite E. Qed.

(** A loop whose body raises at [x] ends there. *)
Lemma for_each_raise {A B} (l1 : list A) x l2
    (body : A -> M (Conn:=Conn) (Resource:=Resource) (Attribute:=Attribute) B) cs bs e :
  outcome (for_each l1 body cs) = Ok bs ->
  outcome (body x (conns (for_each l1 body cs))) = Raise e ->
  for_each (l1 ++ x :: l2) body cs
  = mkRun (Raise e) (conns (body x (conns (for_each l1 body cs))))
      (emitted (for_each l1 body cs) ++ emitted (body x (conns (for_each l1 body cs)))).
Proof.
  revert cs bs. induction l1 as [|y l1 IH]; intros cs bs Hpre Hx.
  - simpl in *. by rewrite (bind_raise _ _ _ e).
  - cbn [for_each app] in *.
    apply bind_ok_inv in Hpre as (b & Hb & Hrest).
    apply bind_ok_inv in Hrest as (bs' & Hbs' & _).
    rewrite (bind_ok _ _ _ _ Hb) in Hx. simpl in Hx.
    rewrite (bind_ok _ _ _ _ Hbs') in Hx. simpl in Hx.
    rewrite !(bind_ok _ _ _ _ Hb). simpl.
    rewrite (bind_ok _ _ _ _ Hbs'). simpl.
    rewrite (bind_raise _ _ _ e); rewrite (IH _ _ Hbs' Hx); simpl; [|done].
    by rewrite app_nil_r, app_assoc.
Qed.

(** C3 (as the code has it).  Nothing at the level of the pass catches an
    exception: when the processing of a resource raises, after the
    resources before it went through, the pass raises the same exception
    there and then.  The events of the pass end with those of the failed
    resource, so that the resources after it are not processed and no
    reconciliation delete is issued. *)
Theorem failure_aborts_scope service_name resource_type region_name client_args cs
    region earlier boto3_resource later urns e :
  let run := scope_pass service_name resource_type region_name client_args cs in
  let client_args' := type_client_args boto3_interface region_name client_args in
  let before := for_each earlier (write_one boto3_interface region) cs in
  let failed := write_one boto3_interface region boto3_resource (conns before) in
  client_args' !! "region_name" = Some region ->
  get_resources_of_type boto3_interface service_name resource_type client_args'
  = Ok (earlier ++ boto3_resource :: later) ->
  outcome before = Ok urns ->
  outcome failed = Raise e ->
  outcome run = Raise e
  /\ emitted run
     = [EvLog (LogFetching service_name resource_type region);
        EvProvider (GetResourcesOfType service_name resource_type client_args')]
       ++ emitted before ++ emitted failed
  /\ conns run = conns failed
  /\ Forall (fun ev => is_delete ev = false) (emitted run).
Proof.
  intros run client_args' before failed Hregion Hfetch Hbefore Hfailed.
  assert (Hrun : run = mkRun (Raise e) (conns failed)
                   ([EvLog (LogFetching service_name resource_type region);
                     EvProvider (GetResourcesOfType service_name resource_type
                                   client_args')]
                    ++ emitted before ++ emitted failed)).
  { subst run. unfold write_resources_of_type_in_region.
    fold client_args'. unfold mbind, M_bind, getitem.
    rewrite Hregion. simpl. rewrite Hfetch. simpl.
    by rewrite (for_each_raise _ _ _ _ _ _ _ Hbefore Hfailed). }
  rewrite Hrun. simpl. split_and!; [done..|].
  repeat (apply Forall_cons; split; [done|]).
  apply Forall_app. split.
  - destruct (performs_write_loop boto3_interface region earlier cs) as (_ & Hp & _).
    apply Forall_forall. intros ev Hev. apply (elem_of_prefix _ _ _ Hev) in Hp.
    destruct ev as [msg|pc|i call]; [done..|].
    apply connector_event_expand in Hp as [_ Hc].
    apply list_elem_of_bind in Hc as (r & Hc & _).
    apply call_in_write_one in Hc.
    by destruct Hc as [->|[(s & _ & ->)|(a & _ & ->)]].
  - destruct (performs_write_one boto3_interface region boto3_resource (conns before))
      as (_ & Hp & _).
    apply Forall_forall. intros ev Hev. apply (elem_of_prefix _ _ _ Hev) in Hp.
    destruct ev as [msg|pc|i call]; [done..|].
    apply connector_event_expand in Hp as [_ Hc].
    apply call_in_write_one in Hc.
    by destruct Hc as [->|[(s & _ & ->)|(a & _ & ->)]].
Qed.

Lemma type_client_args_nonempty region_name (d : dict) :
  d ≠ ∅ -> type_client_args boto3_interface region_name (Some d) = d.
Proof.
  intros Hne. unfold type_client_args, truthy_dict.
  by rewrite bool_decide_false.
Qed.

Lemma type_client_args_default region_name client_args :
  client_args = None \/ client_args = Some ∅ ->
  type_client_args boto3_interface region_name client_args
  = {[ "region_name" := region_or_session boto3_interface region_name ]}.
Proof. by intros [-> | ->]. Qed.

(** The pass reads its region and lists the scope before anything else. *)
Lemma scope_pass_begins service_name resource_type region_name client_args region cs :
  let client_args' := type_client_args boto3_interface region_name client_args in
  client_args' !! "region_name" = Some region ->
  exists rest,
    emitted (scope_pass service_name resource_type region_name client_args cs)
    = EvLog (LogFetching service_name resource_type region)
      :: EvProvider (GetResourcesOfType service_name resource_type client_args')
      :: rest.
Proof.
  intros client_args' Hregion. unfold write_resources_of_type_in_region.
  fold client_args'. unfold mbind at 1 2 3, M_bind, getitem.
  rewrite Hregion. simpl.
  destruct (get_resources_of_type _ _ _ _); simpl; eauto.
Qed.

(** C10.  Called with a non-empty [client_args], the pass does not look at
    its [region_name] argument, and if the dict has no ['region_name'] it
    raises [KeyError] with no event emitted -- nothing fetched, no connector
    touched.  An absent or empty [client_args] is replaced by the dict that
    holds, under ['region_name'], the [region_name] argument when that is a
    non-empty string and the region of the session otherwise; the pass then
    gets past the subscript, logs and lists the scope with that dict, and
    runs for that region. *)
Theorem region_name_ignored_with_client_args service_name resource_type (d : dict) :
  d ≠ ∅ ->
  (forall region_name region_name' cs,
     scope_pass service_name resource_type region_name (Some d) cs
     = scope_pass service_name resource_type region_name' (Some d) cs)
  /\ (d !! "region_name" = None ->
      forall region_name cs,
        scope_pass service_name resource_type region_name (Some d) cs
        = mkRun (Raise (KeyError "region_name")) cs [])
  /\ (forall region_name client_args cs,
        client_args = None \/ client_args = Some ∅ ->
        let region :=
          match region_name with
          | Some s => if decide (s = "") then session_region_name boto3_interface
                      else PyStr s
          | None => session_region_name boto3_interface
          end in
        let run := scope_pass service_name resource_type region_name client_args cs in
        type_client_args boto3_interface region_name client_args
        = {[ "region_name" := region ]}
        /\ (exists rest,
              emitted run
              = EvLog (LogFetching service_name resource_type region)
                :: EvProvider (GetResourcesOfType service_name resource_type
                                 {[ "region_name" := region ]})
                :: rest)
        /\ performs (scope_pass service_name resource_type region_name client_args)
             (scope_actions boto3_interface service_name resource_type
                {[ "region_name" := region ]} region) tt).
Proof.
  intros Hne. split_and!.
  - intros region_name region_name' cs. unfold write_resources_of_type_in_region.
    by rewrite !type_client_args_nonempty.
  - intros Hnone region_name cs. apply scope_key_error.
    by rewrite type_client_args_nonempty.
  - intros region_name client_args cs Hca region run.
    assert (Hregion : region_or_session boto3_interface region_name = region).
    { subst region. unfold region_or_session, truthy_str.
      destruct region_name as [s|]; [|done].
      destruct (decide (s = "")) as [->|Hs]; [done|].
      by rewrite bool_decide_false. }
    assert (Hargs : type_client_args boto3_interface region_name client_args
                    = {[ "region_name" := region ]}).
    { by rewrite (type_client_args_default region_name client_args Hca), Hregion. }
    assert (Hlookup : type_client_args boto3_interface region_name client_args
                      !! "region_name" = Some region).
    { rewrite Hargs. apply lookup_singleton_eq. }
    split_and!; [done| |].
    + destruct (scope_pass_begins service_name resource_type region_name client_args
                  region cs Hlookup) as [rest Hrest].
      exists rest. subst run. rewrite Hrest. by rewrite Hargs.
    + rewrite <- Hargs. by apply performs_scope.
Qed.
End ScopeClaims.

(** ** The region traversal *)

Section RegionTraversal.
Context {Service Resource Attribute Conn : Type}.
Context (boto3_interface : Boto3Interface Service Resource Attribute).
Context `{!BaseStorageConnector Conn Resource Attribute}.

#[local] Abbreviation Event := (Event Resource Attribute).
#[local] Abbreviation Action := (Action Resource Attribute).

Implicit Types (acts : list Action) (ev : Event) (cs : list Conn) (a : Action).

(** The dict handed down always holds a ['region_name']. *)
Lemma service_client_args_region region_name client_args :
  service_client_args boto3_interface region_name client_args !! "region_name"
  = Some (service_region boto3_interface region_name client_args).
Proof.
  unfold service_region, service_client_args.
  set (d0 := match client_args with
             | Some d => if truthy_dict client_args then d else ∅
             | None => ∅
             end).
  set (d1 := match region_name with
             | Some s => if truthy_str region_name
                         then <["region_name" := PyStr s]> d0 else d0
             | None => d0
             end).
  destruct (d1 !! "region_name") as [v|] eqn:E.
  - by rewrite E.
  - by rewrite lookup_insert_eq.
Qed.

Lemma service_client_args_nonempty region_name client_args :
  service_client_args boto3_interface region_name client_args ≠ ∅.
Proof.
  intros Hempty.
  pose proof (service_client_args_region region_name client_args) as H.
  by rewrite Hempty, lookup_empty in H.
Qed.

Lemma performs_service service_name exclude_resources region_name client_args :
  performs (write_resources_of_service_in_region (Conn:=Conn) boto3_interface
              service_name exclude_resources region_name client_args)
    (service_actions boto3_interface service_name (default [] exclude_resources)
       (service_client_args boto3_interface region_name client_args)
       (service_region boto3_interface region_name client_args)) tt.
Proof.
  unfold write_resources_of_service_in_region. eapply performs_eq.
  - eapply performs_bind;
      [apply performs_getitem, service_client_args_region|].
    eapply performs_bind; [apply performs_log|].
    eapply performs_bind; [|apply performs_ret].
    apply performs_for_each
      with (acts := fun resource_type =>
                      if decide (resource_type ∈ default [] exclude_resources)
                      then [ALog (LogSkipping resource_type)]
                      else scope_actions boto3_interface service_name resource_type
                             (service_client_args boto3_interface region_name
                                client_args)
                             (service_region boto3_interface region_name client_args))
           (val := fun _ => tt).
    intros resource_type _. destruct (decide _).
    + apply performs_log.
    + rewrite <- (type_client_args_nonempty boto3_interface None
                    (service_client_args boto3_interface region_name client_args))
        at 2 by apply service_client_args_nonempty.
      apply performs_scope.
      rewrite type_client_args_nonempty by apply service_client_args_nonempty.
      apply service_client_args_region.
  - unfold service_actions. simpl. by rewrite app_nil_r.
  - done.
Qed.

Lemma performs_region exclude_resources region_name client_args :
  performs (write_resources_in_region (Conn:=Conn) boto3_interface exclude_resources
              region_name client_args)
    (region_actions boto3_interface (default [] exclude_resources) region_name
       client_args) tt.
Proof.
  unfold write_resources_in_region. eapply performs_eq.
  - eapply performs_bind; [|apply performs_ret].
    apply performs_for_each
      with (acts := fun boto3_service =>
                      service_actions boto3_interface
                        (meta_service_name boto3_interface boto3_service)
                        (default [] exclude_resources)
                        (service_client_args boto3_interface region_name client_args)
                        (service_region boto3_interface region_name client_args))
           (val := fun _ => tt).
    intros boto3_service _.
    apply (performs_service _ (Some (default [] exclude_resources))).
  - unfold region_actions. by rewrite app_nil_r.
  - done.
Qed.

Lemma elem_of_scope_actions service_name resource_type client_args region a :
  a ∈ scope_actions boto3_interface service_name resource_type client_args region ->
  action_resource_type a = Some resource_type \/ action_resource_type a = None.
Proof.
  unfold scope_actions, scope_write_actions, scope_clean_actions.
  rewrite elem_of_app, !elem_of_cons, !list_elem_of_bind.
  intros [[->|[->|(r & Ha & _)]]|(rn & Ha & _)].
  - by left.
  - by left.
  - right. unfold write_one_actions, write_resource_actions,
      secondary_attributes_actions in Ha.
    rewrite elem_of_app, !elem_of_cons, !list_elem_of_bind in Ha.
    destruct Ha as [[->|[->|(s & Ha & _)]]|[->|(s & Ha & _)]]; [done..| |done|].
    + unfold subresource_actions in Ha. rewrite !elem_of_cons in Ha.
      by destruct Ha as [->|[->|Ha%elem_of_nil]].
    + unfold attribute_actions in Ha. rewrite !elem_of_cons in Ha.
      by destruct Ha as [->|[->|Ha%elem_of_nil]].
  - left. unfold clean_actions in Ha. rewrite !elem_of_cons in Ha.
    by destruct Ha as [->|[->|Ha%elem_of_nil]].
Qed.

Lemma elem_of_region_actions exclude_resources region_name client_args a :
  a ∈ region_actions boto3_interface exclude_resources region_name client_args <->
  exists boto3_service,
    boto3_service ∈ get_all_resource_services boto3_interface
    /\ let service_name := meta_service_name boto3_interface boto3_service in
       (a = ALog (LogWritingService service_name
                    (service_region boto3_interface region_name client_args))
        \/ exists resource_type,
             resource_type ∈ get_service_resource_types boto3_interface service_name
             /\ (resource_type ∈ exclude_resources
                 /\ a = ALog (LogSkipping resource_type)
                 \/ (resource_type ∉ exclude_resources)
                    /\ a ∈ scope_actions boto3_interface service_name resource_type
                           (service_client_args boto3_interface region_name
                              client_args)
                           (service_region boto3_interface region_name client_args))).
Proof.
  unfold region_actions. rewrite list_elem_of_bind.
  apply exist_proper. intros svc. unfold service_actions.
  rewrite elem_of_cons, list_elem_of_bind. split.
  - intros ([->|(t & Ha & Ht)] & Hsvc); (split; [done|]); [by left|].
    right. exists t. split; [done|]. destruct (decide _).
    + left. split; [done|]. by apply list_elem_of_singleton in Ha.
    + by right.
  - intros (Hsvc & [->|(t & Ht & Ha)]); (split; [|done]); [by left|].
    right. exists t. split; [|done]. destruct (decide _).
    + destruct Ha as [[_ ->]|[? _]]; [|done]. by left.
    + by destruct Ha as [[? _]|[_ ?]].
Qed.

Lemma event_action_resource_type n a ev :
  ev ∈ expand n a -> event_resource_type ev = action_resource_type a.
Proof.
  destruct a as [msg|pc|call]; simpl.
  - by intros ->%list_elem_of_singleton.
  - by intros ->%list_elem_of_singleton.
  - unfold on_all. intros (i & -> & _)%list_elem_of_fmap. done.
Qed.

(** C6 (as the code has it).  In a region traversal, a resource type named
    in the exclude list
    has its scope skipped: no event of the traversal -- fetch, reconciliation
    delete, or the log line of either -- is for that resource type, and
    every Urn written comes from the pass of a resource type that is not in
    the list.  Only resource types are compared with the list, by equality:
    when the traversal returns, every resource type of every service that
    is not in the list has been fetched. *)
Theorem excluded_types_skipped exclude_resources excluded region_name client_args cs :
  let run := write_resources_in_region boto3_interface (Some exclude_resources)
               region_name client_args cs in
  let client_args' := service_client_args boto3_interface region_name client_args in
  let region := service_region boto3_interface region_name client_args in
  excluded ∈ exclude_resources ->
  (forall ev, ev ∈ emitted run -> event_resource_type ev ≠ Some excluded)
  /\ (forall i urn resource,
        EvConnector i (WriteResource urn resource) ∈ emitted run ->
        exists boto3_service resource_type,
          boto3_service ∈ get_all_resource_services boto3_interface
          /\ resource_type ∈ get_service_resource_types boto3_interface
                               (meta_service_name boto3_interface boto3_service)
          /\ (resource_type ∉ exclude_resources)
          /\ urn ∈ scope_urns boto3_interface region
                     (resources_of boto3_interface
                        (meta_service_name boto3_interface boto3_service)
                        resource_type client_args'))
  /\ (outcome run = Ok tt ->
      forall boto3_service resource_type,
        boto3_service ∈ get_all_resource_services boto3_interface ->
        resource_type ∈ get_service_resource_types boto3_interface
                          (meta_service_name boto3_interface boto3_service) ->
        resource_type ∉ exclude_resources ->
        EvProvider (GetResourcesOfType
                      (meta_service_name boto3_interface boto3_service)
                      resource_type client_args') ∈ emitted run).
Proof.
  intros run client_args' region Hexcluded.
  destruct (performs_region (Some exclude_resources) region_name client_args cs)
    as (_ & Hp & Hok).
  fold run in Hp, Hok. simpl in Hp, Hok. split_and!.
  - intros ev Hev Htype. apply (elem_of_prefix _ _ _ Hev) in Hp.
    apply list_elem_of_bind in Hp as (a & Hin & Ha).
    rewrite (event_action_resource_type _ _ _ Hin) in Htype.
    apply elem_of_region_actions in Ha as (svc & _ & [->|(t & _ & Ha)]); [done|].
    destruct Ha as [[_ ->]|[Ht Ha]]; [done|].
    apply elem_of_scope_actions in Ha as [Ha|Ha]; congruence.
  - intros i urn resource Hev. apply (elem_of_prefix _ _ _ Hev) in Hp.
    apply connector_event_expand in Hp as [_ Ha].
    apply elem_of_region_actions in Ha as (svc & Hsvc & [[=]|(t & Ht & Ha)]).
    destruct Ha as [[_ [=]]|[Hnot Ha]].
    exists svc, t. split_and!; [done..|].
    apply scope_urns_written. exists resource.
    unfold scope_actions in Ha. apply elem_of_app in Ha as [Ha|Ha]; [done|].
    by apply call_in_scope_clean in Ha as (rn & _ & [=]).
  - intros Hrun svc t Hsvc Ht Hnot. destruct (Hok tt Hrun) as (_ & -> & _).
    apply provider_event_expand, elem_of_region_actions.
    exists svc. split; [done|]. right. exists t. split; [done|]. right.
    split; [done|]. unfold scope_actions, scope_write_actions.
    apply elem_of_app. left. right. left.
Qed.
End RegionTraversal.

(** ** Reconciliation on the storage connector of the specification *)

Section SpecStore.
Context {Service Resource Attribute : Type}.
Context (boto3_interface : Boto3Interface Service Resource Attribute).

#[local] Abbreviation Store :=
  (gmap (AwsUrn * option string) (StoredRecord Resource Attribute)).
#[local] Abbreviation Action := (Action Resource Attribute).
#[local] Abbreviation scope_pass :=
  (write_resources_of_type_in_region (Conn:=Store) boto3_interface).

Implicit Types (store : Store) (cs : list Store) (acts : list Action)
  (key : AwsUrn * option string).

Lemma spec_connector_never_raises :
  never_raises (Conn:=Store) (Resource:=Resource) (Attribute:=Attribute).
Proof. by intros []. Qed.

Lemma lookup_reconciled service resource_type account region urns_to_keep store key :
  reconciled service resource_type account region urns_to_keep store !! key
  = if decide (stale service resource_type account region urns_to_keep key.1)
    then None else store !! key.
Proof.
  unfold reconciled. rewrite map_lookup_filter.
  destruct (store !! key) as [x|]; simpl; [|by destruct (decide _)].
  destruct (decide _) as [Hs|Hs].
  - by rewrite option_guard_False by (by intros ?).
  - by rewrite option_guard_True.
Qed.

Lemma elem_of_stored_urns service resource_type account region store urn :
  urn ∈ stored_urns service resource_type account region store <->
  in_scope service resource_type account region urn
  /\ exists tag, is_Some (store !! (urn, tag)).
Proof.
  unfold stored_urns. rewrite elem_of_map. split.
  - intros ([u tag] & -> & [Hs Hd%elem_of_dom]%elem_of_filter). eauto.
  - intros (Hs & tag & Hd). exists (urn, tag). split; [done|].
    apply elem_of_filter. split; [done|]. by apply elem_of_dom.
Qed.

(** One reconciliation call.  [_clean_resources_in_region] has every
    connector reconcile the scope (service, resource_type, account_id,
    region) against the keep-list: a stored record is deleted exactly when
    its Urn matches the scope and is not in the keep-list, every record
    outside the scope stays as it is, and the stored set of the scope
    afterwards is the part of the previous stored set that is in the
    keep-list -- which, when the Urns of the keep-list that are of the scope
    are all stored (as they are after the writes of a pass), is the keep-set
    restricted to the scope. *)
Lemma reconcile_deletes_stale_records_of_scope service_name resource_type region_name
    current_urns cs :
  let run := _clean_resources_in_region boto3_interface service_name resource_type
               region_name current_urns cs in
  let account := account_id boto3_interface in
  let after := reconciled service_name resource_type account region_name current_urns in
  outcome run = Ok tt
  /\ emitted run
     = on_all (length cs)
         (DeleteResourceOfTypeInAccountRegion service_name resource_type account
            region_name current_urns)
  /\ conns run = after <$> cs
  /\ forall store,
       (forall key,
          after store !! key
          = if decide (in_scope service_name resource_type account region_name key.1
                       /\ key.1 ∉ current_urns)
            then None else store !! key)
       /\ (forall key,
             ¬ in_scope service_name resource_type account region_name key.1 ->
             after store !! key = store !! key)
       /\ stored_urns service_name resource_type account region_name (after store)
          = stored_urns service_name resource_type account region_name store
            ∩ list_to_set current_urns
       /\ ((forall urn,
              urn ∈ current_urns ->
              in_scope service_name resource_type account region_name urn ->
              urn ∈ stored_urns service_name resource_type account region_name store) ->
           stored_urns service_name resource_type account region_name (after store)
           = filter (in_scope service_name resource_type account region_name)
               (list_to_set current_urns)).
Proof.
  intros run account after.
  assert (Hok : outcome run = Ok tt)
    by apply call_each_never_raises, spec_connector_never_raises.
  destruct (performs_clean_resources_in_region boto3_interface service_name
              resource_type region_name current_urns cs) as (_ & _ & H).
  destruct (H tt Hok) as (_ & He & Hc). fold run in He, Hc.
  split_and!; [done| |done|].
  { rewrite He. simpl. by rewrite app_nil_r. }
  intros store.
  assert (Hlookup : forall key,
            after store !! key
            = if decide (in_scope service_name resource_type account region_name key.1
                         /\ key.1 ∉ current_urns)
              then None else store !! key).
  { intros key. subst after. rewrite lookup_reconciled. unfold stale.
    repeat case_decide; tauto. }
  assert (Hset : stored_urns service_name resource_type account region_name
                   (after store)
                 = stored_urns service_name resource_type account region_name store
                   ∩ list_to_set current_urns).
  { apply set_eq. intros urn.
    rewrite elem_of_intersection, elem_of_list_to_set, !elem_of_stored_urns.
    split.
    - intros (Hs & tag & Hsome). rewrite Hlookup in Hsome.
      destruct (decide _) as [|Hn]; [by destruct Hsome|].
      split_and!; [done|by exists tag|].
      simpl in Hn. destruct (decide (urn ∈ current_urns)); [done|tauto].
    - intros [(Hs & tag & Hsome) Hkeep]. split; [done|]. exists tag.
      rewrite Hlookup. rewrite decide_False; [done|]. simpl. tauto. }
  split_and!; [done| |done|].
  - intros key Hout. rewrite Hlookup. by rewrite decide_False by tauto.
  - intros Hstored. rewrite Hset. apply set_eq. intros urn.
    rewrite elem_of_intersection, elem_of_filter, elem_of_list_to_set. split.
    + intros [[Hs _]%elem_of_stored_urns Hkeep]. done.
    + intros [Hs Hkeep]. split; [by apply Hstored|done].
Qed.

(** *** Replaying the reconciliation deletes *)

Lemma replay_clean_cons service_name resource_type urns region_name regions store :
  replay ((region_name :: regions)
          ≫= clean_actions boto3_interface service_name resource_type urns) store
  = replay (regions ≫= clean_actions boto3_interface service_name resource_type urns)
      (reconciled service_name resource_type (account_id boto3_interface) region_name
         urns store).
Proof. by rewrite bind_cons, replay_app. Qed.

Lemma replay_clean_mono service_name resource_type urns regions store key x :
  replay (regions ≫= clean_actions boto3_interface service_name resource_type urns)
    store !! key = Some x ->
  store !! key = Some x.
Proof.
  revert store. induction regions as [|rn regions IH]; intros store; [done|].
  rewrite replay_clean_cons. intros H%IH. rewrite lookup_reconciled in H.
  by destruct (decide _).
Qed.

Lemma replay_clean_stale service_name resource_type urns regions store key region_name :
  region_name ∈ regions ->
  stale service_name resource_type (account_id boto3_interface) region_name urns key.1 ->
  replay (regions ≫= clean_actions boto3_interface service_name resource_type urns)
    store !! key = None.
Proof.
  revert store. induction regions as [|rn regions IH]; intros store Hin Hstale.
  - by apply elem_of_nil in Hin.
  - rewrite replay_clean_cons. apply elem_of_cons in Hin as [->|Hin]; [|by apply IH].
    destruct (replay _ _ !! key) as [x|] eqn:E; [|done].
    apply replay_clean_mono in E. rewrite lookup_reconciled in E.
    by rewrite decide_True in E.
Qed.

Lemma replay_clean_kept service_name resource_type urns regions store key :
  (forall region_name,
     region_name ∈ regions ->
     ¬ stale service_name resource_type (account_id boto3_interface) region_name urns
         key.1) ->
  replay (regions ≫= clean_actions boto3_interface service_name resource_type urns)
    store !! key = store !! key.
Proof.
  revert store. induction regions as [|rn regions IH]; intros store Hkept; [done|].
  rewrite replay_clean_cons, IH, lookup_reconciled.
  - rewrite decide_False; [done|]. apply Hkept. left.
  - intros rn' Hrn'. apply Hkept. by right.
Qed.

(** *** Replaying the writes *)

Lemma replay_writes_union acts store :
  (forall call, ACall call ∈ acts -> is_Some (written_urn call)) ->
  replay acts store = replay acts ∅ ∪ store.
Proof.
  revert store. induction acts as [|a acts IH]; intros store Hw.
  - unfold replay. simpl. by rewrite (left_id_L ∅ (∪)).
  - assert (Hw' : forall call, ACall call ∈ acts -> is_Some (written_urn call)).
    { intros call Hc. apply Hw. by right. }
    change (replay (a :: acts) store) with (replay acts (step store a)).
    change (replay (a :: acts) ∅) with (replay acts (step (∅ : Store) a)).
    rewrite (IH (step store a)), (IH (step ∅ a)) by done.
    destruct a as [msg|pc|[urn r|urn sa ty|? ? ? ? ?]]; simpl.
    + by rewrite (right_id_L ∅ (∪)).
    + by rewrite (right_id_L ∅ (∪)).
    + by rewrite insert_empty, <- (assoc_L (∪)), <- insert_union_singleton_l.
    + by rewrite insert_empty, <- (assoc_L (∪)), <- insert_union_singleton_l.
    + exfalso. by eapply is_Some_None, (Hw (DeleteResourceOfTypeInAccountRegion _ _ _ _ _)); left.
Qed.

Lemma replay_writes_keys acts store key x :
  (forall call, ACall call ∈ acts -> is_Some (written_urn call)) ->
  replay acts store !! key = Some x ->
  store !! key = Some x
  \/ exists call, ACall call ∈ acts /\ written_urn call = Some key.1.
Proof.
  revert store. induction acts as [|a acts IH]; intros store Hw; [by left|].
  assert (Hw' : forall call, ACall call ∈ acts -> is_Some (written_urn call)).
  { intros call Hc. apply Hw. by right. }
  change (replay (a :: acts) store) with (replay acts (step store a)).
  intros [H|(call & Hc & Hu)]%IH; [|right; exists call; split; [by right|done]|done].
  destruct a as [msg|pc|[urn r|urn sa ty|? ? ? ? ?]]; simpl in H.
  - by left.
  - by left.
  - apply lookup_insert_Some in H as [[<- _]|[_ H]]; [|by left].
    right. exists (WriteResource urn r). split; [left|done].
  - apply lookup_insert_Some in H as [[<- _]|[_ H]]; [|by left].
    right. exists (WriteSecondaryAttribute urn sa ty). split; [left|done].
  - exfalso. by eapply is_Some_None, (Hw (DeleteResourceOfTypeInAccountRegion _ _ _ _ _)); left.
Qed.

(** Every Urn the pass writes under is in its keep-list. *)
Lemma scope_write_calls service_name resource_type client_args region call :
  ACall call ∈ scope_write_actions boto3_interface service_name resource_type
                 client_args region ->
  exists urn,
    written_urn call = Some urn
    /\ urn ∈ scope_urns boto3_interface region
               (resources_of boto3_interface service_name resource_type client_args).
Proof.
  intros Hc. pose proof Hc as Hc'.
  apply call_in_scope_write in Hc as (r & Hr & Hc).
  assert (Hparent : _get_resource_urn boto3_interface r region
                    ∈ scope_urns boto3_interface region
                        (resources_of boto3_interface service_name resource_type
                           client_args)).
  { apply scope_urns_written. exists r. apply call_in_scope_write.
    exists r. split; [done|]. apply call_in_write_one. by left. }
  apply call_in_write_one in Hc as [->|[(sub & Hsub & ->)|(sa & Hsa & ->)]];
    (eexists; split; [done|]); [done| |done].
  apply scope_urns_written. eexists. exact Hc'.
Qed.

Lemma replay_writes_mono acts store key :
  (forall call, ACall call ∈ acts -> is_Some (written_urn call)) ->
  is_Some (store !! key) -> is_Some (replay acts store !! key).
Proof.
  intros Hw Hsome. rewrite replay_writes_union by done.
  apply lookup_union_is_Some. by right.
Qed.

Lemma replay_writes_present acts store urn resource :
  (forall call, ACall call ∈ acts -> is_Some (written_urn call)) ->
  ACall (WriteResource urn resource) ∈ acts ->
  is_Some (replay acts store !! (urn, None)).
Proof.
  revert store. induction acts as [|a acts IH]; intros store Hw Hin.
  - by apply elem_of_nil in Hin.
  - assert (Hw' : forall call, ACall call ∈ acts -> is_Some (written_urn call)).
    { intros call Hc. apply Hw. by right. }
    change (replay (a :: acts) store) with (replay acts (step store a)).
    apply elem_of_cons in Hin as [<-|Hin]; [|by apply IH].
    apply replay_writes_mono; [done|]. simpl. by rewrite lookup_insert_eq.
Qed.

(** After a pass that returned, the stored set of each scope it reconciled
    is the part of the keep-list that is of that scope. *)
Lemma stored_set_of_scope_after_pass service_name resource_type region_name client_args
    cs region region' store :
  let run := scope_pass service_name resource_type region_name client_args cs in
  let client_args' := type_client_args boto3_interface region_name client_args in
  let account := account_id boto3_interface in
  let urns :=
    scope_urns boto3_interface region
      (resources_of boto3_interface service_name resource_type client_args') in
  client_args' !! "region_name" = Some region ->
  outcome run = Ok tt ->
  region' ∈ resource_regions_returned_from_api_region boto3_interface service_name region ->
  store ∈ conns run ->
  stored_urns service_name resource_type account region' store
  = filter (in_scope service_name resource_type account region') (list_to_set urns).
Proof.
  intros run client_args' account urns Hregion Hok Hregion' Hstore.
  destruct (performs_scope boto3_interface service_name resource_type region_name
              client_args region Hregion cs) as (_ & _ & H).
  destruct (H tt Hok) as (_ & _ & Hc). fold run client_args' in Hc.
  rewrite Hc in Hstore. apply list_elem_of_fmap in Hstore as (store0 & -> & _).
  unfold scope_actions, scope_clean_actions. fold urns. rewrite replay_app.
  set (W := scope_write_actions _ _ _ _ _).
  assert (HW : forall call, ACall call ∈ W -> is_Some (written_urn call)).
  { intros call (urn & -> & _)%scope_write_calls. done. }
  apply set_eq. intros urn.
  rewrite elem_of_filter, elem_of_list_to_set, elem_of_stored_urns. split.
  - intros (Hscope & tag & Hsome). split; [done|].
    destruct (decide (urn ∈ urns)) as [|Hnot]; [done|].
    rewrite (replay_clean_stale _ _ _ _ _ (urn, tag) region') in Hsome;
      [by destruct Hsome|done|by split].
  - intros [Hscope Hkeep]. split; [done|]. exists None.
    rewrite replay_clean_kept by (intros rn _ [_ Hnot]; by apply Hnot).
    apply scope_urns_written in Hkeep as (resource & Hcall).
    by eapply replay_writes_present.
Qed.

(** A second pass over a store that went through the pass changes
    nothing. *)
Lemma replay_scope_idempotent service_name resource_type client_args region store :
  let acts := scope_actions boto3_interface service_name resource_type client_args
                region in
  replay acts (replay acts store) = replay acts store.
Proof.
  intros acts. subst acts. unfold scope_actions. rewrite !replay_app.
  set (W := scope_write_actions _ _ _ _ _).
  set (urns := scope_urns boto3_interface region
                 (resources_of boto3_interface service_name resource_type
                    client_args)).
  set (regions := resource_regions_returned_from_api_region boto3_interface
                    service_name region).
  unfold scope_clean_actions. fold urns regions.
  set (C := regions ≫= clean_actions boto3_interface service_name resource_type urns).
  assert (HW : forall call, ACall call ∈ W -> is_Some (written_urn call)).
  { intros call (urn & -> & _)%scope_write_calls. done. }
  assert (Hkeys : forall key x, replay W ∅ !! key = Some x -> key.1 ∈ urns).
  { intros key x [H|(call & Hc & Hu)]%replay_writes_keys; [done| |done].
    apply scope_write_calls in Hc as (urn & Hu' & Hin).
    rewrite Hu in Hu'. by injection Hu' as <-. }
  set (m1 := replay C (replay W store)).
  assert (Hm1 : replay W m1 = m1).
  { rewrite replay_writes_union by done. apply map_eq. intros key.
    rewrite lookup_union. destruct (replay W ∅ !! key) as [x|] eqn:E.
    - subst m1 C. rewrite replay_clean_kept.
      + rewrite (replay_writes_union W store), lookup_union, E by done.
        by destruct (store !! key).
      + intros rn _ [_ Hnot]. apply Hnot. by eapply Hkeys.
    - by rewrite (left_id_L None (∪)). }
  rewrite Hm1. apply map_eq. intros key. subst m1 C.
  destruct (decide (Exists (fun rn => stale service_name resource_type
                                        (account_id boto3_interface) rn urns key.1)
                      regions)) as [Hex|Hnex].
  - apply Exists_exists in Hex as (rn & Hrn & Hstale).
    by rewrite !(replay_clean_stale _ _ _ _ _ _ rn).
  - rewrite replay_clean_kept; [done|].
    intros rn Hrn Hstale. apply Hnex, Exists_exists. eauto.
Qed.

(** The writes of a pass leave alone what is stored under a Urn that is
    not in the keep-list. *)
Lemma replay_writes_other service_name resource_type client_args region store key :
  key.1 ∉ scope_urns boto3_interface region
            (resources_of boto3_interface service_name resource_type client_args) ->
  replay (scope_write_actions boto3_interface service_name resource_type client_args
            region) store !! key
  = store !! key.
Proof.
  intros Hnot. set (W := scope_write_actions _ _ _ _ _).
  assert (HW : forall call, ACall call ∈ W -> is_Some (written_urn call)).
  { intros call (urn & -> & _)%scope_write_calls. done. }
  rewrite replay_writes_union, lookup_union by done.
  destruct (replay W ∅ !! key) as [x|] eqn:E; [|by rewrite (left_id_L None (∪))].
  exfalso. apply Hnot.
  apply replay_writes_keys in E as [E|(call & Hc & Hu)]; [done| |done].
  apply scope_write_calls in Hc as (urn & Hu' & Hin).
  rewrite Hu in Hu'. by injection Hu' as <-.
Qed.

(** A pass that returns has gone through its write loop. *)
Lemma scope_pass_write_loop service_name resource_type region_name client_args cs
    region :
  let client_args' := type_client_args boto3_interface region_name client_args in
  let written :=
    for_each (resources_of boto3_interface service_name resource_type client_args')
      (write_one boto3_interface region) cs in
  client_args' !! "region_name" = Some region ->
  outcome (scope_pass service_name resource_type region_name client_args cs) = Ok tt ->
  conns written
  = replay (scope_write_actions boto3_interface service_name resource_type client_args'
              region) <$> cs.
Proof.
  intros client_args' written Hregion Hok.
  assert (Hloop : exists urns, outcome written = Ok urns).
  { revert Hok. unfold write_resources_of_type_in_region. fold client_args'.
    unfold mbind at 1 2 3, M_bind, getitem. rewrite Hregion. simpl.
    subst written. unfold resources_of.
    destruct (get_resources_of_type _ _ _ _) as [resources|e]; simpl; [|done].
    intros (urns & Hurns & _)%bind_ok_inv. eauto. }
  destruct Hloop as [urns Hurns].
  destruct (performs_write_loop boto3_interface region
              (resources_of boto3_interface service_name resource_type client_args') cs)
    as (_ & _ & H).
  destruct (H urns Hurns) as (_ & _ & Hconns). exact Hconns.
Qed.

(** C2 (as the code has it).  A pass that returns has every connector
    reconcile, against the keep-list, the scope (service, resource_type,
    account_id, region') of each region' that
    [resource_regions_returned_from_api_region] reports for the region just
    crawled -- whether or not the crawled region is among them.  On every
    connector, reconciliation deletes the records whose Urn matches one of
    those scopes and is not in the keep-list, and leaves every other record
    as the writes of the pass left it, in particular every record outside
    those scopes.  So a record stored before the pass is gone after it
    exactly when its Urn matches one of those scopes and is not in the
    keep-list, what is stored under a Urn that matches none of them and is
    not in the keep-list is as it was before the pass, and the stored set of
    each of those scopes is the part of the keep-set that is of that
    scope. *)
Theorem pass_reconciles_reported_regions service_name resource_type region_name
    client_args cs region :
  let run := scope_pass service_name resource_type region_name client_args cs in
  let client_args' := type_client_args boto3_interface region_name client_args in
  let account := account_id boto3_interface in
  let resources :=
    resources_of boto3_interface service_name resource_type client_args' in
  let written := conns (for_each resources (write_one boto3_interface region) cs) in
  let urns := scope_urns boto3_interface region resources in
  let regions :=
    resource_regions_returned_from_api_region boto3_interface service_name region in
  let reconciled_scope (urn : AwsUrn) :=
    exists region',
      region' ∈ regions /\ in_scope service_name resource_type account region' urn in
  client_args' !! "region_name" = Some region ->
  outcome run = Ok tt ->
  length written = length cs
  /\ length (conns run) = length cs
  /\ (forall i region',
        i < length cs -> region' ∈ regions ->
        EvConnector i (DeleteResourceOfTypeInAccountRegion service_name resource_type
                         account region' urns) ∈ emitted run)
  /\ forall i before mid after,
       cs !! i = Some before ->
       written !! i = Some mid ->
       conns run !! i = Some after ->
       (forall key,
          reconciled_scope key.1 -> key.1 ∉ urns -> after !! key = None)
       /\ (forall key,
             ¬ (reconciled_scope key.1 /\ key.1 ∉ urns) ->
             after !! key = mid !! key)
       /\ (forall key,
             is_Some (before !! key) /\ after !! key = None
             <-> is_Some (before !! key) /\ reconciled_scope key.1 /\ key.1 ∉ urns)
       /\ (forall key,
             ¬ reconciled_scope key.1 -> key.1 ∉ urns ->
             after !! key = before !! key)
       /\ (forall region',
             region' ∈ regions ->
             stored_urns service_name resource_type account region' after
             = filter (in_scope service_name resource_type account region')
                 (list_to_set urns)).
Proof.
  intros run client_args' account resources written urns regions reconciled_scope
    Hregion Hok.
  destruct (performs_scope boto3_interface service_name resource_type region_name
              client_args region Hregion cs) as (Hlen & _ & H).
  destruct (H tt Hok) as (_ & He & Hc). fold run client_args' in Hlen, He, Hc.
  set (W := scope_write_actions boto3_interface service_name resource_type client_args'
              region).
  assert (Hwritten : written = replay W <$> cs)
    by (by apply scope_pass_write_loop).
  split_and!; [by rewrite Hwritten, length_fmap|done| |].
  { intros i region' Hi Hregion'. rewrite He. apply connector_event_expand.
    split; [done|]. unfold scope_actions. apply elem_of_app. right.
    apply call_in_scope_clean. exists region'. by split. }
  intros i before mid after Hbefore Hmid Hafter.
  set (C := regions ≫= clean_actions boto3_interface service_name resource_type urns).
  assert (HW : forall call, ACall call ∈ W -> is_Some (written_urn call)).
  { intros call (urn & -> & _)%scope_write_calls. done. }
  assert (Hmid' : mid = replay W before).
  { rewrite Hwritten, list_lookup_fmap, Hbefore in Hmid. by injection Hmid as <-. }
  assert (Hafter' : after = replay C mid).
  { rewrite Hc, list_lookup_fmap, Hbefore in Hafter. injection Hafter as <-.
    unfold scope_actions, scope_clean_actions. by rewrite replay_app, Hmid'. }
  assert (Hstale : forall key,
            reconciled_scope key.1 -> key.1 ∉ urns -> after !! key = None).
  { intros key (region' & Hregion' & Hscope) Hnot. rewrite Hafter'.
    by apply (replay_clean_stale _ _ _ _ _ _ region'). }
  assert (Hkept : forall key,
            ¬ (reconciled_scope key.1 /\ key.1 ∉ urns) ->
            after !! key = mid !! key).
  { intros key Hnot. rewrite Hafter'. apply replay_clean_kept.
    intros region' Hregion' [Hscope Hnotin]. apply Hnot. split; [|done].
    by exists region'. }
  split_and!; [done|done| | |].
  - intros key. split.
    + intros [Hsome Hnone]. split; [done|].
      destruct (decide (Exists (fun region' =>
                  stale service_name resource_type account region' urns key.1)
                  regions)) as [Hex|Hnex].
      * apply Exists_exists in Hex as (region' & Hregion' & Hscope & Hnotin).
        split; [by exists region'|done].
      * exfalso. rewrite Hkept, Hmid' in Hnone.
        -- apply (replay_writes_mono W) in Hsome; [|done].
           rewrite Hnone in Hsome. by destruct Hsome.
        -- intros [(region' & Hregion' & Hscope) Hnotin].
           apply Hnex, Exists_exists. exists region'. split; [done|]. by split.
    + intros (Hsome & Hscope & Hnotin). split; [done|]. by apply Hstale.
  - intros key Hout Hnot. rewrite Hkept by tauto. rewrite Hmid'.
    by apply replay_writes_other.
  - intros region' Hregion'.
    apply (stored_set_of_scope_after_pass service_name resource_type region_name
             client_args cs region region' after Hregion Hok Hregion').
    by eapply list_elem_of_lookup_2.
Qed.

(** *** Passes on the storage connector of the specification *)

Ltac stateless_steps :=
  repeat first
    [ apply stateless_ret
    | apply stateless_log
    | apply stateless_provider
    | apply stateless_getitem
    | apply stateless_for_each_connector, spec_connector_never_raises
    | apply stateless_for_each; intros ?
    | apply stateless_bind; [|intros ?] ].

Lemma stateless_scope service_name resource_type region_name client_args :
  stateless (scope_pass service_name resource_type region_name client_args).
Proof.
  unfold write_resources_of_type_in_region, clean_regions, write_one,
    _write_resource, _write_secondary_attributes, _clean_resources_in_region.
  stateless_steps.
Qed.

Lemma for_each_ok {A B} (l : list A)
    (body : A -> M (Conn:=Store) (Resource:=Resource) (Attribute:=Attribute) B) cs :
  (forall x cs', is_ok (outcome (body x cs')) = true) ->
  is_ok (outcome (for_each l body cs)) = true.
Proof.
  intros Hbody. revert cs. induction l as [|x l IH]; intros cs; [done|].
  cbn [for_each]. unfold mbind, M_bind.
  specialize (Hbody x cs). destruct (outcome (body x cs)); [|done]. simpl.
  specialize (IH (conns (body x cs))).
  by destruct (outcome (for_each l body _)).
Qed.

Lemma clean_regions_ok service_name resource_type regions urns cs :
  outcome (clean_regions boto3_interface service_name resource_type regions urns cs)
  = Ok tt.
Proof.
  unfold clean_regions, mbind, M_bind.
  match goal with
  | |- context [outcome (for_each ?l ?body ?cs)] =>
      pose proof (for_each_ok l body cs) as H
  end.
  destruct (outcome (for_each _ _ _)); [done|]. discriminate H.
  intros rn cs'. unfold _clean_resources_in_region, for_each_connector. simpl.
  by rewrite call_each_never_raises by apply spec_connector_never_raises.
Qed.

(** C5 (as the code has it).  When the fresh listing of a scope is empty,
    the pass still
    returns and still reconciles: under every region reported for the API
    region it hands every connector an empty keep-list, and afterwards no
    connector holds a record of that scope -- whatever it held before. *)
Theorem empty_scope_deletes_all service_name resource_type region_name client_args cs
    region :
  let run := scope_pass service_name resource_type region_name client_args cs in
  let client_args' := type_client_args boto3_interface region_name client_args in
  let account := account_id boto3_interface in
  client_args' !! "region_name" = Some region ->
  get_resources_of_type boto3_interface service_name resource_type client_args'
  = Ok [] ->
  outcome run = Ok tt
  /\ forall region',
       region' ∈ resource_regions_returned_from_api_region boto3_interface
                   service_name region ->
       (forall i, i < length cs ->
          EvConnector i (DeleteResourceOfTypeInAccountRegion service_name
                           resource_type account region' []) ∈ emitted run)
       /\ (forall store, store ∈ conns run ->
             stored_urns service_name resource_type account region' store = ∅
             /\ forall key,
                  in_scope service_name resource_type account region' key.1 ->
                  store !! key = None).
Proof.
  intros run client_args' account Hregion Hfetch.
  assert (Hok : outcome run = Ok tt).
  { subst run. unfold write_resources_of_type_in_region.
    fold client_args'. unfold mbind at 1 2 3 4, M_bind, getitem.
    rewrite Hregion. simpl. rewrite Hfetch. simpl. apply clean_regions_ok. }
  split; [done|]. intros region' Hregion'.
  destruct (performs_scope boto3_interface service_name resource_type region_name
              client_args region Hregion cs) as (_ & _ & H).
  destruct (H tt Hok) as (_ & He & Hc). fold run client_args' in He, Hc.
  assert (Hurns : scope_urns boto3_interface region
                    (resources_of boto3_interface service_name resource_type
                       client_args') = []).
  { unfold resources_of. by rewrite Hfetch. }
  split.
  - intros i Hi. rewrite He. apply connector_event_expand. split; [done|].
    unfold scope_actions. apply elem_of_app. right.
    apply call_in_scope_clean. exists region'. split; [done|].
    unfold clean_call. by rewrite Hurns.
  - intros store Hstore. rewrite Hc in Hstore.
    apply list_elem_of_fmap in Hstore as (store0 & -> & _).
    assert (Hnone : forall key,
              in_scope service_name resource_type account region' key.1 ->
              replay (scope_actions boto3_interface service_name resource_type
                        client_args' region) store0 !! key = None).
    { intros key Hscope. unfold scope_actions, scope_clean_actions.
      rewrite replay_app, Hurns.
      apply (replay_clean_stale _ _ _ _ _ _ region'); [done|].
      split; [done|]. apply not_elem_of_nil. }
    split; [|done]. apply set_eq. intros urn.
    rewrite elem_of_stored_urns. split; [|by intros ?%not_elem_of_empty].
    intros (Hscope & tag & Hsome). rewrite (Hnone (urn, tag)) in Hsome by done.
    by destruct Hsome.
Qed.

(** C8.  On connectors that behave as the specification says, a second
    pass over the same scope with the same answers from the provider
    returns like the first and leaves every connector as the first pass
    left it; so the stored set of the scope is unchanged. *)
Theorem scope_pass_idempotent service_name resource_type region_name client_args cs :
  let pass := scope_pass service_name resource_type region_name client_args in
  outcome (pass cs) = Ok tt ->
  outcome (pass (conns (pass cs))) = Ok tt
  /\ conns (pass (conns (pass cs))) = conns (pass cs)
  /\ forall region,
       stored_urns service_name resource_type (account_id boto3_interface) region
         <$> conns (pass (conns (pass cs)))
       = stored_urns service_name resource_type (account_id boto3_interface) region
           <$> conns (pass cs).
Proof.
  intros pass. subst pass. intros Hok.
  set (pass := scope_pass service_name resource_type region_name client_args) in *.
  destruct (type_client_args boto3_interface region_name client_args !! "region_name")
    as [region|] eqn:Hregion;
    [|subst pass; by rewrite scope_key_error in Hok].
  assert (Hok2 : outcome (pass (conns (pass cs))) = Ok tt).
  { subst pass. by rewrite (stateless_scope _ _ _ _ _ cs). }
  assert (Hconns : conns (pass (conns (pass cs))) = conns (pass cs)).
  { destruct (performs_scope boto3_interface service_name resource_type region_name
                client_args region Hregion cs) as (_ & _ & H1).
    destruct (performs_scope boto3_interface service_name resource_type region_name
                client_args region Hregion (conns (pass cs))) as (_ & _ & H2).
    destruct (H1 tt Hok) as (_ & _ & Hc1). destruct (H2 tt Hok2) as (_ & _ & Hc2).
    fold pass in Hc1, Hc2. rewrite Hc2, Hc1, <- list_fmap_compose.
    apply list_fmap_ext. intros _ store _. apply replay_scope_idempotent. }
  split_and!; [done..|]. intros region'. by rewrite Hconns.
Qed.
End SpecStore.

(** ** Runs on the small account *)

Section DemoRuns.
Import Demo.

#[local] Abbreviation vpc_pass boto3_interface :=
  (write_resources_of_type_in_region boto3_interface "ec2" "vpc" (Some "us-east-1") None
     [old_store]).

(** The pass over (ec2, vpc): the keep-list handed to the connector holds the
    Urns of [vpc-1], its subnet and [vpc-2]. *)
Lemma keep_set_is_written_urns_witness :
  (forall urn,
     urn ∈ vpc_keep <->
     exists resource,
       EvConnector 0 (WriteResource urn resource) ∈ emitted (vpc_pass boto3))
  /\ (forall j urn secondary_attribute attribute_type,
        EvConnector j (WriteSecondaryAttribute urn secondary_attribute attribute_type)
        ∈ emitted (vpc_pass boto3) ->
        urn ∈ vpc_keep
        /\ exists resource,
             EvConnector j (WriteResource urn resource) ∈ emitted (vpc_pass boto3)).
Proof.
  apply (keep_set_is_written_urns boto3 "ec2" "vpc" (Some "us-east-1") None [old_store]
           0 "ec2" "vpc" account "us-east-1" vpc_keep).
  vm_compute. repeat constructor.
Defined.
#[local] Abbreviation bucket_pass :=
  (write_resources_of_type_in_region boto3 "s3" "bucket" (Some "us-east-1") None
     [bucket_store]).

(** C2, as stated, fails in both of its parts.  The pass over (s3, bucket)
    crawls [us-east-1] and deletes the record of a bucket stored under
    [eu-west-1], which is outside the scope just crawled.  And after the pass
    over (ec2, vpc) the stored set of the scope is not the keep-set: the
    keep-list also holds the Urn of the subnet of [vpc-1], which is not of
    the scope. *)
Lemma reconciliation_is_not_confined_to_crawled_scope :
  let key := (demo_urn bucket0 (PyStr "eu-west-1"), @None string) in
  (outcome bucket_pass = Ok tt
   /\ ¬ in_scope "s3" "bucket" account "us-east-1" key.1
   /\ bucket_store !! key = Some (ResourceRecord bucket0)
   /\ (fun store : Store => store !! key) <$> conns bucket_pass = [None])
  /\ (outcome (vpc_pass boto3) = Ok tt
      /\ EvConnector 0 (DeleteResourceOfTypeInAccountRegion "ec2" "vpc" account
                          "us-east-1" vpc_keep) ∈ emitted (vpc_pass boto3)
      /\ forall store,
           store ∈ conns (vpc_pass boto3) ->
           stored_urns "ec2" "vpc" account "us-east-1" store ≠ list_to_set vpc_keep).
Proof.
  split; split_and!.
  - vm_compute. reflexivity.
  - intros (_ & _ & _ & Hregion). discriminate Hregion.
  - vm_compute. reflexivity.
  - vm_compute. reflexivity.
  - vm_compute. reflexivity.
  - vm_compute. repeat constructor.
  - intros store _ Heq.
    assert (Hin : demo_urn subnet1 us_east_1
                  ∈ stored_urns "ec2" "vpc" account "us-east-1" store).
    { rewrite Heq. apply elem_of_list_to_set. right. left. }
    apply elem_of_stored_urns in Hin as [(_ & Htype & _) _]. discriminate Htype.
Qed.

(** The pass over (ec2, vpc) on a store that holds a stale vpc. *)
Lemma pass_reconciles_reported_regions_witness :
  let run := vpc_pass boto3 in
  let client_args' := type_client_args boto3 (Some "us-east-1") None in
  let account := account_id boto3 in
  let resources := resources_of boto3 "ec2" "vpc" client_args' in
  let written := conns (for_each resources (write_one boto3 us_east_1) [old_store]) in
  let urns := scope_urns boto3 us_east_1 resources in
  let regions := resource_regions_returned_from_api_region boto3 "ec2" us_east_1 in
  let reconciled_scope (urn : AwsUrn) :=
    exists region', region' ∈ regions /\ in_scope "ec2" "vpc" account region' urn in
  (client_args' !! "region_name" = Some us_east_1 /\ outcome run = Ok tt)
  /\ length written = length [old_store]
  /\ length (conns run) = length [old_store]
  /\ (forall i region',
        i < length [old_store] -> region' ∈ regions ->
        EvConnector i (DeleteResourceOfTypeInAccountRegion "ec2" "vpc" account region'
                         urns) ∈ emitted run)
  /\ forall i before mid after,
       [old_store] !! i = Some before ->
       written !! i = Some mid ->
       conns run !! i = Some after ->
       (forall key,
          reconciled_scope key.1 -> key.1 ∉ urns -> after !! key = None)
       /\ (forall key,
             ¬ (reconciled_scope key.1 /\ key.1 ∉ urns) ->
             after !! key = mid !! key)
       /\ (forall key,
             is_Some (before !! key) /\ after !! key = None
             <-> is_Some (before !! key) /\ reconciled_scope key.1 /\ key.1 ∉ urns)
       /\ (forall key,
             ¬ reconciled_scope key.1 -> key.1 ∉ urns ->
             after !! key = before !! key)
       /\ (forall region',
             region' ∈ regions ->
             stored_urns "ec2" "vpc" account region' after
             = filter (in_scope "ec2" "vpc" account region') (list_to_set urns)).
Proof.
  assert (H1 : type_client_args boto3 (Some "us-east-1") None !! "region_name"
               = Some us_east_1) by reflexivity.
  assert (H2 : outcome (vpc_pass boto3) = Ok tt) by (vm_compute; reflexivity).
  exact (conj (conj H1 H2)
           (pass_reconciles_reported_regions boto3 "ec2" "vpc" (Some "us-east-1") None
              [old_store] us_east_1 H1 H2)).
Defined.

(** C3, as stated, fails when listing the subresources of [vpc-1] raises:
    the pass raises too, right after the failed call; [vpc-2] is never
    processed and nothing is reconciled. *)
Lemma resource_failure_is_not_caught :
  outcome (vpc_pass boto3_failing) = Raise (ProviderError 500)
  /\ emitted (vpc_pass boto3_failing)
     = [EvLog (LogFetching "ec2" "vpc" us_east_1);
        EvProvider (GetResourcesOfType "ec2" "vpc" {[ "region_name" := us_east_1 ]});
        EvConnector 0 (WriteResource (demo_urn vpc1 us_east_1) vpc1);
        EvProvider (GetSubresources vpc1)].
Proof. split; vm_compute; reflexivity. Qed.

Lemma failure_aborts_scope_witness :
  outcome (vpc_pass boto3_failing) = Raise (ProviderError 500)
  /\ emitted (vpc_pass boto3_failing)
     = [EvLog (LogFetching "ec2" "vpc" us_east_1);
        EvProvider (GetResourcesOfType "ec2" "vpc"
                      (type_client_args boto3_failing (Some "us-east-1") None))]
       ++ emitted (for_each [] (write_one boto3_failing us_east_1) [old_store])
       ++ emitted (write_one boto3_failing us_east_1 vpc1 [old_store])
  /\ conns (vpc_pass boto3_failing)
     = conns (write_one boto3_failing us_east_1 vpc1 [old_store])
  /\ Forall (fun ev => is_delete ev = false) (emitted (vpc_pass boto3_failing)).
Proof.
  apply (failure_aborts_scope boto3_failing "ec2" "vpc" (Some "us-east-1") None
           [old_store] us_east_1 [] vpc1 [vpc2] [] (ProviderError 500)).
  - reflexivity.
  - reflexivity.
  - reflexivity.
  - vm_compute. reflexivity.
Defined.

(** The pass over (s3, bucket) queries [us-east-1] and reconciles under
    [us-east-1] and [eu-west-1]. *)
Lemma reconciled_under_returned_regions_witness :
  outcome bucket_pass = Ok tt
  /\ forall i service resource_type' account region' urns_to_keep,
       EvConnector i (DeleteResourceOfTypeInAccountRegion service resource_type' account
                        region' urns_to_keep) ∈ emitted bucket_pass
       <-> i < 1
           /\ region' ∈ ["us-east-1"; "eu-west-1"]
           /\ service = "s3" /\ resource_type' = "bucket"
           /\ account = Demo.account
           /\ urns_to_keep = [].
Proof.
  split; [vm_compute; reflexivity|].
  apply (reconciled_under_returned_regions boto3 "s3" "bucket" (Some "us-east-1") None
           [bucket_store] us_east_1).
  - reflexivity.
  - vm_compute. reflexivity.
Defined.

(** The listing of (s3, bucket) is empty: the stale bucket stored under
    [eu-west-1] is deleted. *)
Lemma empty_scope_deletes_all_witness :
  outcome bucket_pass = Ok tt
  /\ forall region',
       region' ∈ ["us-east-1"; "eu-west-1"] ->
       (forall i, i < 1 ->
          EvConnector i (DeleteResourceOfTypeInAccountRegion "s3" "bucket" account
                           region' []) ∈ emitted bucket_pass)
       /\ (forall store, store ∈ conns bucket_pass ->
             stored_urns "s3" "bucket" account region' store = ∅
             /\ forall key,
                  in_scope "s3" "bucket" account region' key.1 ->
                  store !! key = None).
Proof.
  apply (empty_scope_deletes_all boto3 "s3" "bucket" (Some "us-east-1") None
           [bucket_store] us_east_1).
  - reflexivity.
  - reflexivity.
Defined.

(** C5, as stated, fails for the scope (s3, bucket) crawled from
    [eu-west-1]: the listing is empty and a bucket is stored for the scope,
    but no region is reported for that API region, so the pass returns
    having only logged and listed; no delete is issued and the record
    stays. *)
Lemma empty_scope_is_not_reconciled_without_reported_region :
  let client_args' : dict := {[ "region_name" := PyStr "eu-west-1" ]} in
  let run := write_resources_of_type_in_region boto3 "s3" "bucket" (Some "eu-west-1")
               None [bucket_store] in
  let key := (demo_urn bucket0 (PyStr "eu-west-1"), @None string) in
  get_resources_of_type boto3 "s3" "bucket" client_args' = Ok []
  /\ in_scope "s3" "bucket" account "eu-west-1" key.1
  /\ bucket_store !! key = Some (ResourceRecord bucket0)
  /\ outcome run = Ok tt
  /\ emitted run
     = [EvLog (LogFetching "s3" "bucket" (PyStr "eu-west-1"));
        EvProvider (GetResourcesOfType "s3" "bucket" client_args')]
  /\ (fun store : Store => store !! key) <$> conns run
     = [Some (ResourceRecord bucket0)].
Proof.
  split_and!.
  - reflexivity.
  - done.
  - vm_compute. reflexivity.
  - vm_compute. reflexivity.
  - vm_compute. reflexivity.
  - vm_compute. reflexivity.
Qed.

Lemma scope_pass_idempotent_witness :
  let pass := write_resources_of_type_in_region boto3 "ec2" "vpc" (Some "us-east-1")
                None in
  outcome (pass (conns (pass [old_store]))) = Ok tt
  /\ conns (pass (conns (pass [old_store]))) = conns (pass [old_store])
  /\ forall region,
       stored_urns "ec2" "vpc" account region <$> conns (pass (conns (pass [old_store])))
       = stored_urns "ec2" "vpc" account region <$> conns (pass [old_store]).
Proof.
  apply (scope_pass_idempotent boto3 "ec2" "vpc" (Some "us-east-1") None [old_store]).
  vm_compute. reflexivity.
Defined.

(** A dict that only carries a [Config] is kept as it is, and the pass
    fails on its subscript; with no dict the pass runs for the region it is
    given, or for the region of the session. *)
Lemma region_name_ignored_with_client_args_witness :
  (forall region_name region_name' (cs : list Store),
     write_resources_of_type_in_region boto3 "ec2" "vpc" region_name (Some config_only) cs
     = write_resources_of_type_in_region boto3 "ec2" "vpc" region_name'
         (Some config_only) cs)
  /\ (config_only !! "region_name" = None ->
      forall region_name (cs : list Store),
        write_resources_of_type_in_region boto3 "ec2" "vpc" region_name
          (Some config_only) cs
        = mkRun (Raise (KeyError "region_name")) cs [])
  /\ (forall region_name client_args (cs : list Store),
        client_args = None \/ client_args = Some ∅ ->
        let region :=
          match region_name with
          | Some s => if decide (s = "") then session_region_name boto3 else PyStr s
          | None => session_region_name boto3
          end in
        let run := write_resources_of_type_in_region boto3 "ec2" "vpc" region_name
                     client_args cs in
        type_client_args boto3 region_name client_args = {[ "region_name" := region ]}
        /\ (exists rest,
              emitted run
              = EvLog (LogFetching "ec2" "vpc" region)
                :: EvProvider (GetResourcesOfType "ec2" "vpc"
                                 {[ "region_name" := region ]})
                :: rest)
        /\ performs (write_resources_of_type_in_region (Conn:=Store) boto3 "ec2" "vpc"
                       region_name client_args)
             (scope_actions boto3 "ec2" "vpc" {[ "region_name" := region ]} region) tt).
Proof.
  apply (region_name_ignored_with_client_args boto3 "ec2" "vpc" config_only).
  intros Hempty. apply (f_equal (fun d : dict => d !! "config")) in Hempty.
  vm_compute in Hempty. discriminate Hempty.
Defined.

(** The traversal of [us-east-1] with [instance] excluded. *)
Lemma excluded_types_skipped_witness :
  let run := write_resources_in_region boto3 (Some ["instance"]) (Some "us-east-1") None
               [old_store] in
  let client_args' := service_client_args boto3 (Some "us-east-1") None in
  let region := service_region boto3 (Some "us-east-1") None in
  (forall ev, ev ∈ emitted run -> event_resource_type ev ≠ Some "instance")
  /\ (forall i urn resource,
        EvConnector i (WriteResource urn resource) ∈ emitted run ->
        exists boto3_service resource_type,
          boto3_service ∈ get_all_resource_services boto3
          /\ resource_type ∈ get_service_resource_types boto3
                               (meta_service_name boto3 boto3_service)
          /\ (resource_type ∉ ["instance"])
          /\ urn ∈ scope_urns boto3 region
                     (resources_of boto3 (meta_service_name boto3 boto3_service)
                        resource_type client_args'))
  /\ (outcome run = Ok tt ->
      forall boto3_service resource_type,
        boto3_service ∈ get_all_resource_services boto3 ->
        resource_type ∈ get_service_resource_types boto3
                          (meta_service_name boto3 boto3_service) ->
        resource_type ∉ ["instance"] ->
        EvProvider (GetResourcesOfType (meta_service_name boto3 boto3_service)
                      resource_type client_args') ∈ emitted run).
Proof.
  apply (excluded_types_skipped boto3 ["instance"] "instance" (Some "us-east-1") None
           [old_store]).
  left.
Defined.

(** C6, as stated, fails for the excluded type [subnet]: the traversal of
    [us-east-1] still writes the subnet of [vpc-1], as a subresource of the
    pass over (ec2, vpc), under a Urn whose resource type is [subnet]. *)
Lemma excluded_type_is_written_as_subresource :
  let run := write_resources_in_region boto3 (Some ["subnet"]) (Some "us-east-1") None
               [old_store] in
  let urn := demo_urn subnet1 us_east_1 in
  urn_resource_type urn ∈ ["subnet"]
  /\ outcome run = Ok tt
  /\ EvConnector 0 (WriteResource urn subnet1) ∈ emitted run
  /\ (fun store : Store => store !! (urn, None)) <$> conns run
     = [Some (ResourceRecord subnet1)].
Proof.
  split_and!.
  - left.
  - vm_compute. reflexivity.
  - vm_compute. repeat constructor.
  - vm_compute. reflexivity.
Qed.

(** The events of the pass over (ec2, vpc) on one connector. *)
Lemma writes_ordered_before_delete_witness :
  let pass_events :=
    [EvLog (LogFetching "ec2" "vpc" us_east_1);
     EvProvider (GetResourcesOfType "ec2" "vpc" {[ "region_name" := us_east_1 ]});
     EvConnector 0 (WriteResource (demo_urn vpc1 us_east_1) vpc1);
     EvProvider (GetSubresources vpc1);
     EvProvider (Load subnet1);
     EvConnector 0 (WriteResource (demo_urn subnet1 us_east_1) subnet1);
     EvProvider (GetSecondaryAttributes vpc1);
     EvLog (LogFetchingAttribute "VpcEnableDnsSupport" us_east_1);
     EvConnector 0 (WriteSecondaryAttribute (demo_urn vpc1 us_east_1)
                      "VpcEnableDnsSupport" "VpcEnableDnsSupport");
     EvConnector 0 (WriteResource (demo_urn vpc2 us_east_1) vpc2);
     EvProvider (GetSubresources vpc2);
     EvProvider (GetSecondaryAttributes vpc2);
     EvLog (LogDeleting "ec2" "vpc" "us-east-1");
     EvConnector 0 (DeleteResourceOfTypeInAccountRegion "ec2" "vpc" account "us-east-1"
                      vpc_keep)] in
  emitted (vpc_pass boto3) `prefix_of` pass_events
  /\ (outcome (vpc_pass boto3) = Ok tt -> emitted (vpc_pass boto3) = pass_events)
  /\ (forall l1 ev l2,
        emitted (vpc_pass boto3) = l1 ++ ev :: l2 -> is_delete ev = true ->
        Forall (fun ev' => is_write ev' = false) l2).
Proof.
  apply (writes_ordered_before_delete boto3 "ec2" "vpc" (Some "us-east-1") None
           [old_store] us_east_1).
  reflexivity.
Defined.
End DemoRuns.

(** ** Exceptions *)

Section Exceptions.
Context {Service Resource Attribute Conn : Type}.
Context (boto3_interface : Boto3Interface Service Resource Attribute).
Context `{!BaseStorageConnector Conn Resource Attribute}.

#[local] Abbreviation M := (@M Conn Resource Attribute).

Implicit Types (P : Exception -> Prop) (cs : list Conn).

Lemma raises_only_ret {A} P (v : A) : raises_only P (mret v : M A).
Proof. by intros cs e. Qed.

Lemma raises_only_bind {A B} P (m : M A) (k : A -> M B) :
  raises_only P m -> (forall a, raises_only P (k a)) -> raises_only P (m ≫= k).
Proof.
  intros Hm Hk cs e. unfold mbind, M_bind.
  destruct (outcome (m cs)) as [a|e'] eqn:E; simpl.
  - apply Hk.
  - intros [= <-]. by eapply Hm.
Qed.

Lemma raises_only_log P msg : raises_only P (log msg : M unit).
Proof. by intros cs e. Qed.

Lemma raises_only_provider {A} P call (r : result A) :
  (forall e, r = Raise e -> P e) -> raises_only P (provider call r : M A).
Proof. intros Hr cs e. simpl. apply Hr. Qed.

Lemma raises_only_getitem P (d : dict) key :
  is_Some (d !! key) -> raises_only P (getitem d key : M PyValue).
Proof. intros [v Hv] cs e. unfold getitem. by rewrite Hv. Qed.

Lemma raises_only_for_each_connector P call :
  (forall c e, (perform call c).1 = Raise e -> P e) ->
  raises_only P (for_each_connector call).
Proof.
  intros Hcall cs. unfold for_each_connector. generalize 0.
  induction cs as [|c cs IH]; intros i e; simpl; [done|].
  destruct (perform call c).1 as [[]|e'] eqn:E; simpl.
  - apply IH.
  - intros [= <-]. by eapply Hcall.
Qed.

Lemma raises_only_for_each {A B} P (l : list A) (body : A -> M B) :
  (forall x, raises_only P (body x)) -> raises_only P (for_each l body).
Proof.
  intros Hbody. induction l as [|x l IH]; simpl; [by intros cs e|].
  apply raises_only_bind; [done|]. intros b.
  apply raises_only_bind; [done|]. intros bs. apply raises_only_ret.
Qed.

Lemma raises_only_connector_call call :
  raises_only (raised_by_collaborator boto3_interface) (for_each_connector call).
Proof.
  apply raises_only_for_each_connector. intros c e He.
  do 4 right. by exists call, c.
Qed.

Ltac collaborator_steps :=
  repeat first
    [ apply raises_only_ret
    | apply raises_only_log
    | apply raises_only_connector_call
    | apply raises_only_for_each; intros ?
    | apply raises_only_bind; [|intros ?]
    | apply raises_only_provider; intros e He; unfold raised_by_collaborator; eauto 8 ].

Lemma raises_only_write_one region boto3_resource :
  raises_only (raised_by_collaborator boto3_interface)
    (write_one boto3_interface region boto3_resource).
Proof.
  unfold write_one, _write_resource, _write_secondary_attributes.
  collaborator_steps.
Qed.

Lemma raises_only_clean_regions service_name resource_type regions urns :
  raises_only (raised_by_collaborator boto3_interface)
    (clean_regions boto3_interface service_name resource_type regions urns).
Proof. unfold clean_regions, _clean_resources_in_region. collaborator_steps. Qed.

Lemma raises_only_scope service_name resource_type region_name client_args :
  is_Some (type_client_args boto3_interface region_name client_args !! "region_name") ->
  raises_only (raised_by_collaborator boto3_interface)
    (write_resources_of_type_in_region boto3_interface service_name resource_type
       region_name client_args).
Proof.
  intros Hregion. unfold write_resources_of_type_in_region.
  apply raises_only_bind; [by apply raises_only_getitem|]. intros region.
  apply raises_only_bind; [apply raises_only_log|]. intros _.
  apply raises_only_bind.
  { apply raises_only_provider. intros e He. left. eauto. }
  intros resources.
  apply raises_only_bind;
    [apply raises_only_for_each; intros r; apply raises_only_write_one|].
  intros urns. apply raises_only_clean_regions.
Qed.

Lemma raises_only_service service_name exclude_resources region_name client_args :
  raises_only (raised_by_collaborator boto3_interface)
    (write_resources_of_service_in_region boto3_interface service_name
       exclude_resources region_name client_args).
Proof.
  unfold write_resources_of_service_in_region.
  apply raises_only_bind.
  { apply raises_only_getitem. rewrite service_client_args_region. by eexists. }
  intros region.
  apply raises_only_bind; [apply raises_only_log|]. intros _.
  apply raises_only_bind; [|intros ?; apply raises_only_ret].
  apply raises_only_for_each. intros resource_type.
  destruct (decide _); [apply raises_only_log|].
  apply raises_only_scope.
  rewrite type_client_args_nonempty by apply service_client_args_nonempty.
  rewrite service_client_args_region. by eexists.
Qed.

Lemma raises_only_region exclude_resources region_name client_args :
  raises_only (raised_by_collaborator boto3_interface)
    (write_resources_in_region boto3_interface exclude_resources region_name
       client_args).
Proof.
  unfold write_resources_in_region.
  apply raises_only_bind; [|intros ?; apply raises_only_ret].
  apply raises_only_for_each. intros boto3_service. apply raises_only_service.
Qed.

(** X1.  [write_resources] raises nothing of its own: an exception that
    leaves it was raised by a fetch from the provider or by a call on a
    storage connector.  (The dict it hands down always holds a
    ['region_name'], so that the subscript of the pass cannot fail.) *)
Theorem write_resources_raises_only_collaborator_errors exclude_resources client_args
    cs e :
  outcome (write_resources boto3_interface exclude_resources client_args cs) = Raise e ->
  raised_by_collaborator boto3_interface e.
Proof.
  revert cs e. change (raises_only (raised_by_collaborator boto3_interface)
                         (write_resources boto3_interface exclude_resources
                            client_args)).
  unfold write_resources.
  apply raises_only_bind; [apply raises_only_log|]. intros _.
  apply raises_only_bind; [|intros ?; apply raises_only_ret].
  apply raises_only_for_each. intros region_name. apply raises_only_region.
Qed.

(** X2.  Called directly, [write_resources_of_type_in_region] raises either
    the exception of a collaborator or the [KeyError] of its own subscript
    [client_args['region_name']] -- the latter only for a dict without that
    key, and then with no event emitted and the connectors as they were. *)
Theorem scope_pass_exceptions service_name resource_type region_name client_args cs e :
  let run := write_resources_of_type_in_region boto3_interface service_name
               resource_type region_name client_args cs in
  outcome run = Raise e ->
  raised_by_collaborator boto3_interface e
  \/ (e = KeyError "region_name"
      /\ type_client_args boto3_interface region_name client_args !! "region_name" = None
      /\ emitted run = [] /\ conns run = cs).
Proof.
  intros run. subst run.
  destruct (type_client_args boto3_interface region_name client_args !! "region_name")
    as [region|] eqn:Hregion.
  - intros He. left. eapply raises_only_scope; [|exact He]. by rewrite Hregion.
  - rewrite scope_key_error by done. simpl. intros [= <-]. by right.
Qed.
End Exceptions.

(** ** The whole traversal *)

Section Traversal.
Context {Service Resource Attribute Conn : Type}.
Context (boto3_interface : Boto3Interface Service Resource Attribute).
Context `{!BaseStorageConnector Conn Resource Attribute}.

#[local] Abbreviation M := (@M Conn Resource Attribute).
#[local] Abbreviation Event := (Event Resource Attribute).
#[local] Abbreviation Action := (Action Resource Attribute).

Implicit Types (acts : list Action) (cs : list Conn).

Lemma performs_write_resources exclude_resources client_args :
  performs (write_resources (Conn:=Conn) boto3_interface exclude_resources client_args)
    (all_regions_actions boto3_interface exclude_resources client_args) tt.
Proof.
  unfold write_resources. eapply performs_eq.
  - eapply performs_bind; [apply performs_log|].
    eapply performs_bind; [|apply performs_ret].
    apply performs_for_each
      with (acts := fun region_name =>
                      region_actions boto3_interface (default [] exclude_resources)
                        (Some region_name) client_args)
           (val := fun _ => tt).
    intros region_name _. apply performs_region.
  - unfold all_regions_actions. simpl. by rewrite app_nil_r.
  - done.
Qed.

Lemma omap_bind_list {A B C} (f : B -> option C) (g : A -> list B) (l : list A) :
  omap f (l ≫= g) = l ≫= (fun x => omap f (g x)).
Proof.
  induction l as [|x l IH]; [done|].
  by rewrite !bind_cons, omap_app, IH.
Qed.

Lemma omap_none {A B} (f : A -> option B) (l : list A) :
  (forall x, x ∈ l -> f x = None) -> omap f l = [].
Proof.
  induction l as [|x l IH]; intros Hf; [done|]. simpl.
  rewrite (Hf x) by left. apply IH. intros y Hy. apply Hf. by right.
Qed.

(** *** Every connector is sent the same calls *)

Lemma calls_to_seq (i : nat) (call : ConnectorCall Resource Attribute) j m :
  calls_to i ((fun k => EvConnector k call) <$> seq j m)
  = if decide (j <= i < j + m) then [call] else [].
Proof.
  revert j. induction m as [|m IH]; intros j.
  - simpl. by rewrite decide_False by lia.
  - unfold calls_to in *. simpl. rewrite IH. unfold call_to.
    destruct (decide (j = i)) as [->|Hne].
    + rewrite decide_False by lia. by rewrite decide_True by lia.
    + destruct (decide (S j <= i < S j + m)).
      * by rewrite decide_True by lia.
      * by rewrite decide_False by lia.
Qed.

Lemma calls_to_expand i n acts :
  i < n -> calls_to i (acts ≫= expand n) = omap action_call acts.
Proof.
  intros Hi. unfold calls_to. rewrite omap_bind_list.
  induction acts as [|a acts IH]; [done|].
  rewrite bind_cons, IH. destruct a as [msg|pc|call]; [done..|].
  simpl. unfold on_all. fold (calls_to i ((fun k => EvConnector k call) <$> seq 0 n)).
  rewrite calls_to_seq. by rewrite decide_True by lia.
Qed.

(** X3.  When [write_resources] returns, every storage connector has been
    sent the same calls in the same order (the connector calls of the
    traversal), and the list of connectors has kept its length. *)
Theorem connectors_receive_same_calls exclude_resources client_args cs :
  let run := write_resources boto3_interface exclude_resources client_args cs in
  outcome run = Ok tt ->
  length (conns run) = length cs
  /\ forall i, i < length cs ->
       calls_to i (emitted run)
       = omap action_call
           (all_regions_actions boto3_interface exclude_resources client_args).
Proof.
  intros run Hok.
  destruct (performs_write_resources exclude_resources client_args cs)
    as (Hl & _ & H).
  destruct (H tt Hok) as (_ & He & _). fold run in Hl, He.
  split; [done|]. intros i Hi. rewrite He. by apply calls_to_expand.
Qed.

(** *** The order of the listings *)

Lemma fetch_expand n acts :
  omap fetch_of (acts ≫= expand n) = omap action_fetch acts.
Proof.
  rewrite omap_bind_list.
  induction acts as [|a acts IH]; [done|].
  rewrite bind_cons, IH. destruct a as [msg|[]|call]; [done..|].
  simpl. rewrite omap_none; [done|].
  intros ev (k & -> & _)%list_elem_of_fmap. done.
Qed.

Lemma fetch_write_one region boto3_resource :
  omap action_fetch (write_one_actions boto3_interface region boto3_resource) = [].
Proof.
  apply omap_none. intros a Ha.
  unfold write_one_actions, write_resource_actions, secondary_attributes_actions in Ha.
  rewrite elem_of_app, !elem_of_cons, !list_elem_of_bind in Ha.
  destruct Ha as [[->|[->|(s & Ha & _)]]|[->|(s & Ha & _)]]; [done..| |done|].
  - unfold subresource_actions in Ha. rewrite !elem_of_cons in Ha.
    by destruct Ha as [->|[->|Ha%elem_of_nil]].
  - unfold attribute_actions in Ha. rewrite !elem_of_cons in Ha.
    by destruct Ha as [->|[->|Ha%elem_of_nil]].
Qed.

Lemma fetch_scope service_name resource_type client_args region :
  omap action_fetch
    (scope_actions boto3_interface service_name resource_type client_args region)
  = [(service_name, resource_type, client_args)].
Proof.
  unfold scope_actions, scope_write_actions, scope_clean_actions.
  rewrite omap_app. simpl. rewrite !omap_bind_list.
  rewrite (list_bind_ext _ (fun _ => []) _
             (resources_of boto3_interface service_name resource_type client_args));
    [|apply fetch_write_one|done].
  rewrite (list_bind_ext _ (fun _ => []) _
             (resource_regions_returned_from_api_region boto3_interface service_name
                region)); [|done|done].
  assert (Hnil : forall {A} (l : list A),
            l ≫= (fun _ => @nil (string * string * dict)) = []).
  { intros A l. by induction l. }
  by rewrite !Hnil.
Qed.

(** X4.  When [write_resources] returns, it has listed the scopes in the
    order region, service, resource type -- the enabled regions in their
    order, within a region the services in theirs, within a service its
    resource types in theirs, the excluded ones left out -- and every listing
    of a region was handed the dict built for that region. *)
Theorem listings_in_traversal_order exclude_resources client_args cs :
  let run := write_resources boto3_interface exclude_resources client_args cs in
  outcome run = Ok tt ->
  omap fetch_of (emitted run)
  = enabled_regions boto3_interface
    ≫= fun region_name =>
         get_all_resource_services boto3_interface
         ≫= fun boto3_service =>
              get_service_resource_types boto3_interface
                (meta_service_name boto3_interface boto3_service)
              ≫= fun resource_type =>
                   if decide (resource_type ∈ default [] exclude_resources) then []
                   else [(meta_service_name boto3_interface boto3_service,
                          resource_type,
                          service_client_args boto3_interface (Some region_name)
                            client_args)].
Proof.
  intros run Hok.
  destruct (performs_write_resources exclude_resources client_args cs)
    as (_ & _ & H).
  destruct (H tt Hok) as (_ & He & _). fold run in He.
  rewrite He, fetch_expand. unfold all_regions_actions. simpl.
  rewrite omap_bind_list. apply list_bind_ext; [|done]. intros region_name.
  unfold region_actions. rewrite omap_bind_list.
  apply list_bind_ext; [|done]. intros boto3_service.
  unfold service_actions. simpl. rewrite omap_bind_list.
  apply list_bind_ext; [|done]. intros resource_type.
  destruct (decide _); [done|]. apply fetch_scope.
Qed.
End Traversal.

(** ** Arguments, exclusion and failures *)

Section Edges.
Context {Service Resource Attribute Conn : Type}.
Context (boto3_interface : Boto3Interface Service Resource Attribute).
Context `{!BaseStorageConnector Conn Resource Attribute}.

#[local] Abbreviation M := (@M Conn Resource Attribute).
#[local] Abbreviation Event := (Event Resource Attribute).
#[local] Abbreviation Action := (Action Resource Attribute).
#[local] Abbreviation urn_of := (_get_resource_urn boto3_interface).

Implicit Types (acts : list Action) (cs : list Conn).

(** *** The region of a service traversal *)

Lemma fetch_in_scope_actions service_name resource_type client_args region s t d :
  AProvider (GetResourcesOfType s t d)
  ∈ scope_actions boto3_interface service_name resource_type client_args region ->
  s = service_name /\ t = resource_type /\ d = client_args.
Proof.
  intros Hin.
  assert (Hf : (s, t, d)
               ∈ omap action_fetch
                   (scope_actions boto3_interface service_name resource_type
                      client_args region)).
  { apply list_elem_of_omap. by exists (AProvider (GetResourcesOfType s t d)). }
  rewrite fetch_scope in Hf. apply list_elem_of_singleton in Hf. by injection Hf.
Qed.

Lemma service_client_args_lookup region_name client_args :
  service_client_args boto3_interface region_name client_args !! "region_name"
  = Some (if truthy_str region_name then PyStr (default "" region_name)
          else default (session_region_name boto3_interface)
                 (client_args ≫= fun d => d !! "region_name")).
Proof.
  unfold service_client_args.
  destruct region_name as [s|], client_args as [d|]; simpl;
    repeat case_bool_decide; simpl; subst;
    repeat match goal with
           | |- context [match ?m !! ?k with _ => _ end] => destruct (m !! k) eqn:?
           end;
    simplify_map_eq; done.
Qed.

Lemma service_client_args_other region_name client_args key :
  key ≠ "region_name" ->
  service_client_args boto3_interface region_name client_args !! key
  = client_args ≫= fun d => d !! key.
Proof.
  intros Hkey. unfold service_client_args.
  destruct region_name as [s|], client_args as [d|]; simpl;
    repeat case_bool_decide; simpl; subst;
    repeat match goal with
           | |- context [match ?m !! ?k with _ => _ end] => destruct (m !! k) eqn:?
           end;
    simplify_map_eq; done.
Qed.

(** X5.  In [write_resources_of_service_in_region] the region comes from the
    [region_name] argument when it is a non-empty string, otherwise from
    [client_args['region_name']], otherwise from the session; the other
    entries of [client_args] are passed on as they are; and every listing of
    the traversal is for the service and is handed the dict so built. *)
Theorem region_name_precedence service_name exclude_resources region_name client_args
    cs :
  let d := service_client_args boto3_interface region_name client_args in
  d !! "region_name"
  = Some (if truthy_str region_name then PyStr (default "" region_name)
          else default (session_region_name boto3_interface)
                 (client_args ≫= fun d0 => d0 !! "region_name"))
  /\ (forall key, key ≠ "region_name" ->
        d !! key = client_args ≫= fun d0 => d0 !! key)
  /\ (forall s t d',
        EvProvider (GetResourcesOfType s t d')
        ∈ emitted (write_resources_of_service_in_region boto3_interface service_name
                     exclude_resources region_name client_args cs) ->
        s = service_name /\ d' = d).
Proof.
  intros d. split_and!.
  - apply service_client_args_lookup.
  - intros key Hkey. by apply service_client_args_other.
  - intros s t d' Hev.
    destruct (performs_service boto3_interface service_name exclude_resources
                region_name client_args cs) as (_ & Hp & _).
    apply (elem_of_prefix _ _ _ Hev), provider_event_expand in Hp.
    unfold service_actions in Hp.
    apply elem_of_cons in Hp as [[=]|Hp].
    apply list_elem_of_bind in Hp as (resource_type & Hp & _).
    destruct (decide _).
    + by apply list_elem_of_singleton in Hp.
    + by apply fetch_in_scope_actions in Hp as (-> & _ & ->).
Qed.

(** *** The exclude list *)

Lemma bind_ext_l {A B} (m m' : M A) (k : A -> M B) cs :
  m cs = m' cs -> (m ≫= k) cs = (m' ≫= k) cs.
Proof. intros E. unfold mbind, M_bind. by rewrite E. Qed.

Lemma bind_ext_r {A B} (m : M A) (k k' : A -> M B) cs :
  (forall a cs', k a cs' = k' a cs') -> (m ≫= k) cs = (m ≫= k') cs.
Proof.
  intros E. unfold mbind, M_bind. destruct (outcome (m cs)); [|done].
  by rewrite E.
Qed.

Lemma for_each_ext {A B} (l : list A) (f g : A -> M B) cs :
  (forall x cs', f x cs' = g x cs') -> for_each l f cs = for_each l g cs.
Proof.
  intros E. revert cs. induction l as [|x l IH]; intros cs; [done|].
  cbn [for_each]. rewrite (bind_ext_l _ _ _ _ (E x cs)).
  apply bind_ext_r. intros b cs'. by apply bind_ext_l.
Qed.

(** X6.  The exclude list is used as a set: two lists with the same
    elements, in whatever order and however often repeated, give the same
    region traversal. *)
Theorem exclude_list_is_a_set (exclude1 exclude2 : list string) region_name client_args :
  (forall resource_type, resource_type ∈ exclude1 <-> resource_type ∈ exclude2) ->
  forall cs,
    write_resources_in_region boto3_interface (Some exclude1) region_name client_args cs
    = write_resources_in_region boto3_interface (Some exclude2) region_name
        client_args cs.
Proof.
  intros Hsame cs. unfold write_resources_in_region. simpl.
  apply bind_ext_l, for_each_ext. intros boto3_service cs'.
  unfold write_resources_of_service_in_region. simpl.
  apply bind_ext_r. intros region cs''. apply bind_ext_r. intros _ cs3.
  apply bind_ext_l, for_each_ext. intros resource_type cs4.
  destruct (decide (resource_type ∈ exclude1)) as [H1|H1],
           (decide (resource_type ∈ exclude2)) as [H2|H2]; try done.
  - by apply Hsame in H1.
  - by apply Hsame in H2.
Qed.

Lemma for_each_logs {A} (l : list A) (body : A -> M unit) (msg : A -> LogMsg) cs :
  (forall x, x ∈ l -> forall cs', body x cs' = log (msg x) cs') ->
  for_each l body cs
  = mkRun (Ok ((fun _ => tt) <$> l)) cs ((fun x => EvLog (msg x)) <$> l).
Proof.
  induction l as [|x l IH]; intros Hbody; [done|].
  cbn [for_each]. unfold mbind, M_bind.
  rewrite (Hbody x) by left. simpl.
  rewrite IH by (intros y Hy; apply Hbody; by right). simpl.
  by rewrite app_nil_r.
Qed.

(** X7.  A service all of whose resource types are excluded is traversed
    without a fetch and without a call on a connector: the traversal returns,
    has only logged, and leaves the connectors as they were -- so nothing
    stored for the excluded types is reconciled either. *)
Theorem all_types_excluded_touches_nothing service_name exclude_resources region_name
    client_args cs :
  (forall resource_type,
     resource_type ∈ get_service_resource_types boto3_interface service_name ->
     resource_type ∈ default [] exclude_resources) ->
  write_resources_of_service_in_region boto3_interface service_name exclude_resources
    region_name client_args cs
  = mkRun (Ok tt) cs
      (EvLog (LogWritingService service_name
                (service_region boto3_interface region_name client_args))
       :: ((fun resource_type => EvLog (LogSkipping resource_type))
             <$> get_service_resource_types boto3_interface service_name)).
Proof.
  intros Hall. unfold write_resources_of_service_in_region.
  unfold mbind at 1 2, M_bind.
  rewrite (getitem_some _ _ _ _ (service_client_args_region boto3_interface
                                   region_name client_args)). simpl.
  unfold mbind, M_bind.
  rewrite (for_each_logs _ _ LogSkipping); [simpl; by rewrite app_nil_r|].
  intros resource_type Hin cs'. by rewrite decide_True by by apply Hall.
Qed.

(** *** Failures *)

(** X8.  The regions are traversed one after the other and nothing is
    caught in between: when the traversal of a region raises, after the
    regions before it went through, [write_resources] raises the same
    exception there and then, and its events end with those of the failed
    region -- the regions after it are not visited. *)
Theorem region_failure_aborts_later_regions exclude_resources client_args cs
    earlier region_name later units e :
  let traverse := fun region_name =>
    write_resources_in_region boto3_interface exclude_resources (Some region_name)
      client_args in
  let before := for_each earlier traverse cs in
  let failed := traverse region_name (conns before) in
  enabled_regions boto3_interface = earlier ++ region_name :: later ->
  outcome before = Ok units ->
  outcome failed = Raise e ->
  write_resources boto3_interface exclude_resources client_args cs
  = mkRun (Raise e) (conns failed)
      (EvLog LogWritingAllRegions :: emitted before ++ emitted failed).
Proof.
  intros traverse before failed Hregions Hbefore Hfailed.
  unfold write_resources. rewrite Hregions.
  unfold mbind at 1 2, M_bind. simpl. fold traverse.
  by rewrite (for_each_raise _ _ _ _ _ _ _ Hbefore Hfailed).
Qed.

Lemma call_each_all_ok (call : ConnectorCall Resource Attribute) i cs :
  Forall (fun c => (perform call c).1 = Ok tt) cs ->
  call_each call i cs
  = mkRun (Ok tt) ((fun c => (perform call c).2) <$> cs)
      ((fun k => EvConnector k call) <$> seq i (length cs)).
Proof.
  intros Hall. revert i. induction Hall as [|c cs Hc _ IH]; intros i; [done|].
  simpl. rewrite Hc, IH. done.
Qed.

Lemma call_each_raise (call : ConnectorCall Resource Attribute) i
    (reached : list Conn) (c : Conn) (rest : list Conn) e :
  Forall (fun c' => (perform call c').1 = Ok tt) reached ->
  (perform call c).1 = Raise e ->
  call_each call i (reached ++ c :: rest)
  = mkRun (Raise e)
      (((fun c' => (perform call c').2) <$> reached) ++ (perform call c).2 :: rest)
      ((fun k => EvConnector k call) <$> seq i (S (length reached))).
Proof.
  intros Hall Hc. revert i. induction Hall as [|c' reached Hc' _ IH]; intros i.
  - simpl. by rewrite Hc.
  - cbn [app call_each]. rewrite Hc', IH. done.
Qed.

(** X9.  In [_clean_resources_in_region] the connectors are called in list
    order and the first one that raises ends the loop: the connectors before
    it have reconciled, the failing one is left as its call left it, and the
    connectors after it are not called and stay as they were. *)
Theorem failing_connector_stops_reconciliation service_name resource_type region_name
    current_urns (reached : list Conn) (c : Conn) (rest : list Conn) e :
  let call := DeleteResourceOfTypeInAccountRegion service_name resource_type
                (account_id boto3_interface) region_name current_urns in
  Forall (fun c' => (perform call c').1 = Ok tt) reached ->
  (perform call c).1 = Raise e ->
  _clean_resources_in_region boto3_interface service_name resource_type region_name
    current_urns (reached ++ c :: rest)
  = mkRun (Raise e)
      (((fun c' => (perform call c').2) <$> reached) ++ (perform call c).2 :: rest)
      (on_all (S (length reached)) call).
Proof.
  intros call Hall Hc. unfold _clean_resources_in_region, for_each_connector.
  by apply call_each_raise.
Qed.

(** X10.  When the listing of the scope raises before it has given a
    first resource, the pass raises that exception having only logged and
    issued the listing: no connector is called, nothing is written and
    nothing is reconciled.  (A listing that raises after it has given some
    resources is not covered: listings are taken whole here.) *)
Theorem listing_failure_touches_no_connector service_name resource_type region_name
    client_args cs region e :
  let client_args' := type_client_args boto3_interface region_name client_args in
  client_args' !! "region_name" = Some region ->
  get_resources_of_type boto3_interface service_name resource_type client_args'
  = Raise e ->
  write_resources_of_type_in_region boto3_interface service_name resource_type
    region_name client_args cs
  = mkRun (Raise e) cs
      [EvLog (LogFetching service_name resource_type region);
       EvProvider (GetResourcesOfType service_name resource_type client_args')].
Proof.
  intros client_args' Hregion Hfetch. unfold write_resources_of_type_in_region.
  fold client_args'. unfold mbind, M_bind, getitem.
  rewrite Hregion. simpl. by rewrite Hfetch.
Qed.

(** X11.  When listing the subresources of a resource raises before it has
    given a first subresource (and the connectors accept the write),
    [_write_resource] raises that exception after the resource itself has
    been written to every connector: the write is not undone, and nothing is
    loaded or written after it.  (A listing that raises after it has given
    some subresources is not covered: listings are taken whole here.) *)
Theorem subresource_failure_leaves_resource_written boto3_resource region cs e :
  let call := WriteResource (urn_of boto3_resource region) boto3_resource in
  Forall (fun c => (perform call c).1 = Ok tt) cs ->
  get_subresources boto3_interface boto3_resource = Raise e ->
  _write_resource boto3_interface boto3_resource region cs
  = mkRun (Raise e) ((fun c => (perform call c).2) <$> cs)
      (on_all (length cs) call ++ [EvProvider (GetSubresources boto3_resource)]).
Proof.
  intros call Hall Hsub. unfold _write_resource, for_each_connector.
  unfold mbind at 1 2, M_bind. fold call.
  rewrite (call_each_all_ok call 0 cs Hall). simpl. by rewrite Hsub.
Qed.

(** X12.  The keep-list that a returned pass hands to the connectors holds,
    for each resource in turn, its Urn, the Urns of its subresources, and its
    own Urn again once for each of its secondary attributes: the list can
    hold a Urn several times. *)
Theorem keep_list_repeats_urn_per_attribute service_name resource_type region_name
    client_args cs region i service resource_type' account region' urns_to_keep :
  let run := write_resources_of_type_in_region boto3_interface service_name
               resource_type region_name client_args cs in
  let client_args' := type_client_args boto3_interface region_name client_args in
  client_args' !! "region_name" = Some region ->
  outcome run = Ok tt ->
  EvConnector i (DeleteResourceOfTypeInAccountRegion service resource_type' account
                   region' urns_to_keep) ∈ emitted run ->
  urns_to_keep
  = resources_of boto3_interface service_name resource_type client_args'
    ≫= fun boto3_resource =>
         (urn_of boto3_resource region
          :: ((fun subresource => urn_of (loaded boto3_interface subresource) region)
                <$> subresources_of boto3_interface boto3_resource))
         ++ replicate (length (secondary_attributes_of boto3_interface boto3_resource))
              (urn_of boto3_resource region).
Proof.
  intros run client_args' Hregion Hok Hev. subst run.
  rewrite (scope_emitted_ok _ _ _ _ _ _ _ _ Hregion Hok) in Hev.
  apply elem_of_app in Hev as [Hev|Hev]; [by apply scope_write_no_delete in Hev|].
  apply connector_event_expand in Hev as [_ Hev].
  apply call_in_scope_clean in Hev as (rn & _ & [= _ _ _ _ ->]).
  unfold scope_urns. apply list_bind_ext; [|done]. intros r.
  unfold write_one_urns, write_resource_urns, secondary_attributes_urns.
  f_equal. by apply const_fmap.
Qed.
(** X13.  [write_resources] lists every scope under one of the enabled
    regions: the dict handed to a listing is the one built for that region,
    whose ['region_name'] is the region itself (when its name is not empty)
    whatever [client_args['region_name']] says, and whose other entries are
    those of [client_args]. *)
Theorem enabled_region_overrides_client_args exclude_resources client_args cs s t d :
  EvProvider (GetResourcesOfType s t d)
  ∈ emitted (write_resources boto3_interface exclude_resources client_args cs) ->
  exists region_name,
    region_name ∈ enabled_regions boto3_interface
    /\ d = service_client_args boto3_interface (Some region_name) client_args
    /\ (region_name ≠ "" -> d !! "region_name" = Some (PyStr region_name))
    /\ (forall key, key ≠ "region_name" ->
          d !! key = client_args ≫= fun d0 => d0 !! key).
Proof.
  intros Hev.
  destruct (performs_write_resources boto3_interface exclude_resources client_args cs)
    as (_ & Hp & _).
  apply (elem_of_prefix _ _ _ Hev), provider_event_expand in Hp.
  unfold all_regions_actions in Hp. apply elem_of_cons in Hp as [[=]|Hp].
  apply list_elem_of_bind in Hp as (region_name & Hp & Hregion).
  apply elem_of_region_actions in Hp as (svc & _ & [[=]|(rt & _ & Hp)]).
  destruct Hp as [[_ [=]]|[_ Hp]].
  apply fetch_in_scope_actions in Hp as (_ & _ & ->).
  exists region_name. split_and!; [done..| |].
  - intros Hne. rewrite service_client_args_lookup. unfold truthy_str.
    by rewrite bool_decide_false.
  - intros key Hkey. by apply service_client_args_other.
Qed.
End Edges.

(** ** More runs on the small account *)

Section MoreRuns.
Import Demo DemoMore.

Lemma write_resources_raises_only_collaborator_errors_witness :
  outcome (write_resources boto3_failing None None [old_store])
  = Raise (ProviderError 500)
  /\ raised_by_collaborator (Conn:=Store) boto3_failing (ProviderError 500).
Proof.
  split; [vm_compute; reflexivity|].
  apply (write_resources_raises_only_collaborator_errors boto3_failing None None
           [old_store]).
  vm_compute. reflexivity.
Defined.

(** A direct call with a dict that only carries a [Config]. *)
Lemma scope_pass_exceptions_witness :
  let run := write_resources_of_type_in_region boto3 "ec2" "vpc" (Some "us-east-1")
               (Some config_only) [old_store] in
  outcome run = Raise (KeyError "region_name")
  /\ (raised_by_collaborator (Conn:=Store) boto3 (KeyError "region_name")
      \/ (KeyError "region_name" = KeyError "region_name"
          /\ type_client_args boto3 (Some "us-east-1") (Some config_only)
             !! "region_name" = None
          /\ emitted run = [] /\ conns run = [old_store])).
Proof.
  split; [vm_compute; reflexivity|].
  apply (scope_pass_exceptions boto3 "ec2" "vpc" (Some "us-east-1") (Some config_only)
           [old_store]).
  vm_compute. reflexivity.
Defined.

(** The whole account on two connectors. *)
Lemma connectors_receive_same_calls_witness :
  let run := write_resources boto3 (Some ["instance"]) None [old_store; ∅] in
  outcome run = Ok tt
  /\ length (conns run) = 2
  /\ forall i, i < 2 ->
       calls_to i (emitted run)
       = omap action_call (all_regions_actions boto3 (Some ["instance"]) None).
Proof.
  split; [vm_compute; reflexivity|].
  apply (connectors_receive_same_calls boto3 (Some ["instance"]) None [old_store; ∅]).
  vm_compute. reflexivity.
Defined.

Lemma listings_in_traversal_order_witness :
  let run := write_resources boto3 (Some ["instance"]) None [old_store] in
  outcome run = Ok tt
  /\ omap fetch_of (emitted run)
     = [("ec2", "vpc", {[ "region_name" := PyStr "us-east-1" ]});
        ("s3", "bucket", {[ "region_name" := PyStr "us-east-1" ]});
        ("ec2", "vpc", {[ "region_name" := PyStr "eu-west-1" ]});
        ("s3", "bucket", {[ "region_name" := PyStr "eu-west-1" ]})].
Proof.
  split; [vm_compute; reflexivity|].
  apply (listings_in_traversal_order boto3 (Some ["instance"]) None [old_store]).
  vm_compute. reflexivity.
Defined.

Lemma exclude_list_is_a_set_witness :
  (forall resource_type : string,
     resource_type ∈ ["instance"; "vpc"; "instance"]
     <-> resource_type ∈ ["vpc"; "instance"])
  /\ forall cs : list Store,
       write_resources_in_region boto3 (Some ["instance"; "vpc"; "instance"])
         (Some "us-east-1") None cs
       = write_resources_in_region boto3 (Some ["vpc"; "instance"]) (Some "us-east-1")
           None cs.
Proof.
  assert (Hsame : forall resource_type : string,
            resource_type ∈ ["instance"; "vpc"; "instance"]
            <-> resource_type ∈ ["vpc"; "instance"]).
  { intros resource_type. rewrite !elem_of_cons. tauto. }
  split; [exact Hsame|].
  exact (exclude_list_is_a_set boto3 ["instance"; "vpc"; "instance"] ["vpc"; "instance"]
           (Some "us-east-1") None Hsame).
Defined.

Lemma all_types_excluded_touches_nothing_witness :
  write_resources_of_service_in_region boto3 "ec2" (Some ["vpc"; "instance"])
    (Some "us-east-1") None [old_store]
  = mkRun (Ok tt) [old_store]
      [EvLog (LogWritingService "ec2" us_east_1);
       EvLog (LogSkipping "vpc"); EvLog (LogSkipping "instance")].
Proof.
  apply (all_types_excluded_touches_nothing boto3 "ec2" (Some ["vpc"; "instance"])
           (Some "us-east-1") None [old_store]).
  intros resource_type Hin. simpl in Hin. simpl.
  rewrite !elem_of_cons in *. tauto.
Defined.

(** The first region fails; [eu-west-1] is not visited. *)
Lemma region_failure_aborts_later_regions_witness :
  let traverse := fun region_name =>
    write_resources_in_region boto3_failing None (Some region_name) None in
  let before := for_each [] traverse [old_store] in
  let failed := traverse "us-east-1" (conns before) in
  outcome failed = Raise (ProviderError 500)
  /\ write_resources boto3_failing None None [old_store]
     = mkRun (Raise (ProviderError 500)) (conns failed)
         (EvLog LogWritingAllRegions :: emitted before ++ emitted failed).
Proof.
  intros traverse before failed.
  assert (H : outcome failed = Raise (ProviderError 500)).
  { vm_compute. reflexivity. }
  split; [exact H|].
  exact (region_failure_aborts_later_regions boto3_failing None None [old_store]
           [] "us-east-1" ["eu-west-1"] [] (ProviderError 500) eq_refl eq_refl H).
Defined.

(** Three backends, the second out of reach. *)
Lemma failing_connector_stops_reconciliation_witness :
  let call := DeleteResourceOfTypeInAccountRegion "ec2" "vpc" account "us-east-1"
                vpc_keep in
  _clean_resources_in_region boto3 "ec2" "vpc" "us-east-1" vpc_keep
    ([Some old_store] ++ None :: [Some bucket_store])
  = mkRun (Raise (ConnectorError 503))
      (((fun c' => (perform call c').2) <$> [Some old_store])
       ++ (perform call None).2 :: [Some bucket_store])
      (on_all 2 call).
Proof.
  apply (failing_connector_stops_reconciliation boto3 "ec2" "vpc" "us-east-1" vpc_keep
           [Some old_store] None [Some bucket_store] (ConnectorError 503)).
  - repeat constructor.
  - reflexivity.
Defined.

Lemma listing_failure_touches_no_connector_witness :
  write_resources_of_type_in_region boto3_denied "ec2" "instance" (Some "us-east-1")
    None [old_store]
  = mkRun (Raise (ProviderError 403)) [old_store]
      [EvLog (LogFetching "ec2" "instance" us_east_1);
       EvProvider (GetResourcesOfType "ec2" "instance"
                     (type_client_args boto3_denied (Some "us-east-1") None))].
Proof.
  apply (listing_failure_touches_no_connector boto3_denied "ec2" "instance"
           (Some "us-east-1") None [old_store] us_east_1 (ProviderError 403)).
  - reflexivity.
  - reflexivity.
Defined.

Lemma subresource_failure_leaves_resource_written_witness :
  let call := WriteResource (demo_urn vpc1 us_east_1) vpc1 in
  _write_resource boto3_failing vpc1 us_east_1 [old_store]
  = mkRun (Raise (ProviderError 500)) ((fun c => (perform call c).2) <$> [old_store])
      (on_all 1 call ++ [EvProvider (GetSubresources vpc1)]).
Proof.
  apply (subresource_failure_leaves_resource_written boto3_failing vpc1 us_east_1
           [old_store] (ProviderError 500)).
  - repeat constructor.
  - reflexivity.
Defined.

(** [vpc-1] has one secondary attribute: its Urn is in the keep-list twice. *)
Lemma keep_list_repeats_urn_per_attribute_witness :
  EvConnector 0 (DeleteResourceOfTypeInAccountRegion "ec2" "vpc" account "us-east-1"
                   vpc_keep)
  ∈ emitted (write_resources_of_type_in_region boto3 "ec2" "vpc" (Some "us-east-1")
               None [old_store])
  /\ vpc_keep
     = [vpc1; vpc2]
       ≫= fun boto3_resource =>
            (demo_urn boto3_resource us_east_1
             :: ((fun subresource => demo_urn subresource us_east_1)
                   <$> subresources_of boto3 boto3_resource))
            ++ replicate (length (secondary_attributes_of boto3 boto3_resource))
                 (demo_urn boto3_resource us_east_1).
Proof.
  assert (Hev : EvConnector 0 (DeleteResourceOfTypeInAccountRegion "ec2" "vpc" account
                                 "us-east-1" vpc_keep)
                ∈ emitted (write_resources_of_type_in_region boto3 "ec2" "vpc"
                             (Some "us-east-1") None [old_store])).
  { vm_compute. repeat constructor. }
  split; [exact Hev|].
  apply (keep_list_repeats_urn_per_attribute boto3 "ec2" "vpc" (Some "us-east-1") None
           [old_store] us_east_1 0 "ec2" "vpc" account "us-east-1" vpc_keep).
  - reflexivity.
  - vm_compute. reflexivity.
  - exact Hev.
Defined.
(** The caller asks for [ap-south-1]; the listings are for [us-east-1]. *)
Lemma enabled_region_overrides_client_args_witness :
  let d := service_client_args boto3 (Some "us-east-1") (Some with_region) in
  EvProvider (GetResourcesOfType "ec2" "vpc" d)
  ∈ emitted (write_resources boto3 None (Some with_region) [old_store])
  /\ exists region_name,
       region_name ∈ enabled_regions boto3
       /\ d = service_client_args boto3 (Some region_name) (Some with_region)
       /\ (region_name ≠ "" -> d !! "region_name" = Some (PyStr region_name))
       /\ (forall key, key ≠ "region_name" ->
             d !! key = Some with_region ≫= fun d0 => d0 !! key).
Proof.
  intros d.
  assert (Hev : EvProvider (GetResourcesOfType "ec2" "vpc" d)
                ∈ emitted (write_resources boto3 None (Some with_region) [old_store])).
  { vm_compute. repeat constructor. }
  split; [exact Hev|].
  exact (enabled_region_overrides_client_args boto3 None (Some with_region) [old_store]
           "ec2" "vpc" d Hev).
Defined.
End MoreRuns.

(** ** The tasks of the concurrent entry point *)

Section Submission.
Context {Service Resource Attribute Conn Session : Type}.
Context (interface_of : Session -> Boto3Interface Service Resource Attribute).
Context (default_session : nat -> Session).
Context `{!BaseStorageConnector Conn Resource Attribute}.

Implicit Types (session_generator : option (nat -> option Session))
  (regions : list string) (cs : list Conn) (tasks : list (RegionTask (Session:=Session))).

#[local] Abbreviation submit_loop := (submit_regions default_session).
#[local] Abbreviation session_at := (session_of_task default_session).
#[local] Abbreviation wrapped task :=
  (exception_logging_wrapper (Conn:=Conn) (task_method interface_of task)).

Lemma submitted_tasks_of_loop self_boto3_session session_generator exclude_resources
    client_args position regions :
  omap submitted_task
    (submit_loop self_boto3_session session_generator exclude_resources client_args
       position regions)
  = imap (fun k region_name =>
            mkTask (session_at self_boto3_session session_generator (position + k))
              exclude_resources region_name client_args) regions.
Proof.
  revert position. induction regions as [|region_name regions IH]; intros position.
  - done.
  - cbn [submit_regions imap]. rewrite omap_app. cbn [omap list_omap submitted_task].
    rewrite IH, Nat.add_0_r.
    destruct session_generator as [generator|]; simpl.
    + f_equal. apply imap_ext. intros k r _. simpl. by rewrite Nat.add_succ_r.
    + done.
Qed.

Lemma generator_calls_of_loop self_boto3_session session_generator exclude_resources
    client_args position regions :
  omap generator_call
    (submit_loop self_boto3_session session_generator exclude_resources client_args
       position regions)
  = match session_generator with
    | Some _ => seq position (length regions)
    | None => []
    end.
Proof.
  revert position. induction regions as [|region_name regions IH]; intros position.
  - by destruct session_generator.
  - cbn [submit_regions]. rewrite omap_app. cbn [omap list_omap generator_call].
    rewrite IH. by destruct session_generator.
Qed.

Lemma pools_of_loop self_boto3_session session_generator exclude_resources client_args
    position regions :
  omap pool_created
    (submit_loop self_boto3_session session_generator exclude_resources client_args
       position regions)
  = [].
Proof.
  revert position. induction regions as [|region_name regions IH]; intros position.
  - done.
  - cbn [submit_regions]. rewrite omap_app. cbn [omap list_omap pool_created].
    rewrite IH. by destruct session_generator.
Qed.

(** Every task gets its turn, whatever the tasks before it did. *)
Lemma run_in_turn_length tasks cs :
  length (run_in_turn interface_of tasks cs) = length tasks.
Proof.
  revert cs. induction tasks as [|task tasks IH]; intros cs; [done|].
  simpl. by rewrite IH.
Qed.

Lemma run_in_turn_lookup tasks cs position task :
  tasks !! position = Some task ->
  run_in_turn interface_of tasks cs !! position
  = Some (wrapped task (conns_after interface_of (take position tasks) cs)).
Proof.
  revert cs position. induction tasks as [|task' tasks IH]; intros cs position Hlookup.
  - by rewrite lookup_nil in Hlookup.
  - destruct position as [|position].
    + by injection Hlookup as ->.
    + simpl in Hlookup. cbn [run_in_turn take]. simpl. by rewrite (IH _ _ Hlookup).
Qed.

(** C9 (as the code has it).  With a positive [concurrency],
    [write_resources_concurrently] opens one pool, with [max_workers] the
    [concurrency] argument, and submits to it one task per enabled region,
    in the order of the regions, each with the region, the exclude list and
    the [client_args] it was given.  When a session generator is supplied
    it is called once per region, by the submitting thread, and the task of
    a region runs on what its call returned (on a default session when that
    is falsy); the sessions of two tasks differ only if the generator returns
    different ones.  When the generator is falsy, it is never called and
    every task runs on the session of the submitting [CloudWanderer].  A
    task that fails is caught and logged and the other tasks still run: run
    one after the other, the task of every region runs the traversal of its
    region on its session, and a traversal that raises leaves its exception
    logged and the connectors to the next task. *)
Theorem one_task_per_enabled_region self_boto3_session session_generator
    exclude_resources client_args concurrency :
  let events :=
    write_resources_concurrently interface_of default_session self_boto3_session
      session_generator exclude_resources client_args concurrency in
  let regions := enabled_regions (interface_of self_boto3_session) in
  (0 < concurrency)%Z ->
  omap pool_created events = [concurrency]
  /\ omap submitted_task events
     = imap (fun position region_name =>
               mkTask (session_at self_boto3_session session_generator position)
                 exclude_resources region_name client_args) regions
  /\ omap generator_call events
     = match session_generator with
       | Some _ => seq 0 (length regions)
       | None => []
       end
  /\ (forall generator position region_name,
        session_generator = Some generator ->
        regions !! position = Some region_name ->
        omap submitted_task events !! position
        = Some (mkTask (default (default_session position) (generator position))
                  exclude_resources region_name client_args))
  /\ (session_generator = None ->
      Forall (fun task => task_boto3_session task = self_boto3_session)
        (omap submitted_task events))
  /\ (forall cs,
        let runs := run_in_turn interface_of (omap submitted_task events) cs in
        length runs = length regions
        /\ forall position region_name,
             regions !! position = Some region_name ->
             let traversal :=
               write_resources_in_region
                 (interface_of
                    (session_at self_boto3_session session_generator position))
                 exclude_resources (Some region_name) client_args
                 (conns_after interface_of
                    (take position (omap submitted_task events)) cs) in
             runs !! position
             = Some (mkTaskRun (conns traversal) (emitted traversal)
                       (match outcome traversal with
                        | Ok _ => None
                        | Raise e => Some e
                        end))).
Proof.
  intros events regions Hpos.
  assert (Htasks : omap submitted_task events
                   = imap (fun position region_name =>
                             mkTask (session_at self_boto3_session session_generator
                                       position)
                               exclude_resources region_name client_args) regions).
  { subst events. unfold write_resources_concurrently.
    rewrite decide_True by done. cbn [omap list_omap submitted_task].
    rewrite omap_app, submitted_tasks_of_loop. simpl. by rewrite app_nil_r. }
  split_and!.
  - subst events. unfold write_resources_concurrently.
    rewrite decide_True by done. cbn [omap list_omap pool_created].
    rewrite omap_app, pools_of_loop. done.
  - done.
  - subst events. unfold write_resources_concurrently.
    rewrite decide_True by done. cbn [omap list_omap generator_call].
    rewrite omap_app, generator_calls_of_loop. simpl. by rewrite app_nil_r.
  - intros generator position region_name -> Hlookup.
    rewrite Htasks, list_lookup_imap, Hlookup. done.
  - intros ->. rewrite Htasks. apply Forall_forall.
    intros task (position & region_name & -> & _)%elem_of_lookup_imap. done.
  - intros cs runs. subst runs. split.
    + by rewrite run_in_turn_length, Htasks, length_imap.
    + intros position region_name Hlookup.
      intros traversal. subst traversal.
      rewrite (run_in_turn_lookup _ _ _
                 (mkTask (session_at self_boto3_session session_generator position)
                    exclude_resources region_name client_args)); [done|].
      by rewrite Htasks, list_lookup_imap, Hlookup.
Qed.
End Submission.

(** ** Submissions on the small account *)

Section DemoSubmission.
Import Demo.

(** Sessions are told apart by a number; the session of the submitting
    [CloudWanderer] is session 0. *)
#[local] Abbreviation submission session_generator :=
  (write_resources_concurrently (fun _ : nat => boto3) (fun position => 100 + position)
     0 session_generator None None 10).

(** Two regions are enabled: with a generator that hands out a new session
    at each call, the two tasks run on sessions 1 and 2. *)
Lemma one_task_per_enabled_region_witness :
  let session_generator := Some (fun call => Some (S call)) in
  let events := submission session_generator in
  let regions := enabled_regions boto3 in
  (0 < 10)%Z
  /\ omap pool_created events = [10%Z]
  /\ omap submitted_task events
     = imap (fun position region_name =>
               mkTask (session_of_task (fun position => 100 + position) 0
                         session_generator position)
                 None region_name None) regions
  /\ omap generator_call events
     = match session_generator with
       | Some _ => seq 0 (length regions)
       | None => []
       end
  /\ (forall generator position region_name,
        session_generator = Some generator ->
        regions !! position = Some region_name ->
        omap submitted_task events !! position
        = Some (mkTask (default (100 + position) (generator position))
                  None region_name None))
  /\ (session_generator = None ->
      Forall (fun task => task_boto3_session task = 0) (omap submitted_task events))
  /\ (forall cs : list Store,
        let runs := run_in_turn (fun _ : nat => boto3) (omap submitted_task events) cs in
        length runs = length regions
        /\ forall position region_name,
             regions !! position = Some region_name ->
             let traversal :=
               write_resources_in_region boto3 None (Some region_name) None
                 (conns_after (fun _ : nat => boto3)
                    (take position (omap submitted_task events)) cs) in
             runs !! position
             = Some (mkTaskRun (conns traversal) (emitted traversal)
                       (match outcome traversal with
                        | Ok _ => None
                        | Raise e => Some e
                        end))).
Proof.
  split; [done|].
  apply (one_task_per_enabled_region (Conn:=Store) (fun _ : nat => boto3)
           (fun position => 100 + position) 0 (Some (fun call => Some (S call)))
           None None 10).
  done.
Defined.

(** C9, as stated, fails on its session clause.  Called with a falsy
    [session_generator], no session is obtained from a generator and the
    tasks of the two regions both run on the session of the submitting
    [CloudWanderer]; and with a generator that returns the same session at
    every call, the two tasks share that session too. *)
Lemma tasks_share_a_session :
  (omap generator_call (submission None) = []
   /\ omap submitted_task (submission None)
      = [mkTask 0 None "us-east-1" None; mkTask 0 None "eu-west-1" None])
  /\ (omap generator_call (submission (Some (fun _ => Some 7))) = [0; 1]
      /\ omap submitted_task (submission (Some (fun _ => Some 7)))
         = [mkTask 7 None "us-east-1" None; mkTask 7 None "eu-west-1" None]).
Proof. repeat split. Qed.

(** When the listing of instances is denied, the traversal of every region
    raises: run in turn, both tasks have run, each with its exception
    logged, and the second has made its own listings. *)
Lemma failed_task_does_not_stop_the_next :
  let runs :=
    run_in_turn (fun _ : nat => DemoMore.boto3_denied)
      (omap submitted_task (submission None)) [old_store] in
  task_logged <$> runs = [Some (ProviderError 403); Some (ProviderError 403)]
  /\ (fun run => omap fetch_of (task_emitted run)) <$> runs
     = [[("ec2", "vpc", {[ "region_name" := PyStr "us-east-1" ]});
         ("ec2", "instance", {[ "region_name" := PyStr "us-east-1" ]})];
        [("ec2", "vpc", {[ "region_name" := PyStr "eu-west-1" ]});
         ("ec2", "instance", {[ "region_name" := PyStr "eu-west-1" ]})]].
Proof. split; vm_compute; reflexivity. Qed.
End DemoSubmission.
